(** * ipyvtk_simple.viewer: the event-to-render bridge of ViewInteractiveWidget

    A shallow embedding of [src/ipyvtk_simple/viewer.py].  The widget object
    is a record, its methods are computations in a small state-and-exception
    monad, and everything the widget talks to (the VTK interactor and render
    window, the JPEG encoder, the canvas host, the wall clock, the user's
    [on_close] callback) is an explicit environment:

    - [time_at n] is the value returned by the [n]-th call of [time.time()];
    - [fault n c] says whether the [n]-th call into a collaborator, being the
      call [c], raises, and with which message;
    - the calls that completed are appended to [trace], in order.

    A Python float is a rational [Q].  The arithmetic of the rescaling
    (lines 305-308), whose result is rounded to a pixel, is the arithmetic
    of binary64: each division and multiplication is rounded to the
    nearest double, ties to the even mantissa, with gradual underflow and
    overflow to infinity.  Seconds and delays are kept exact: there the
    comparisons and the clamping of the source are modelled, the rounding
    error of the clock arithmetic is not. *)

From Stdlib Require Import ZArith QArith Qround Qabs Qpower Qreduction.
From Stdlib Require Import Bool List String Lia Lqa SpecFloat.
Import ListNotations.

Local Open Scope string_scope.
Local Open Scope list_scope.
Local Open Scope Q_scope.

(** ** Numbers as Python computes them *)

Definition Qltb (a b : Q) : bool := negb (Qle_bool b a).

(** [round(x)] with one argument: the nearest integer, ties to the even one. *)
Definition py_round (x : Q) : Z :=
  let f := Qfloor x in
  match Qcompare (x - inject_Z f) (1 # 2) with
  | Lt => f
  | Gt => (f + 1)%Z
  | Eq => if Z.even f then f else (f + 1)%Z
  end.

(** [int(x)]: truncation towards zero. *)
Definition py_int (x : Q) : Z := Z.quot (Qnum x) (Zpos (Qden x)).

(** ** Binary64

    The doubles are the rationals [m * 2^e] with [|m| < 2^53] and
    [-1074 <= e <= 971], together with the infinities and NaN. *)

Definition pow2 (e : Z) : Q := Qpower 2 e.

(** The exponent of the leading binary digit of [q], for [q] other than
    zero: [2^(ilog2 q) <= |q| < 2^(ilog2 q + 1)]. *)
Definition ilog2 (q : Q) : Z :=
  let l := (Z.log2 (Z.abs (Qnum q)) - Z.log2 (Zpos (Qden q)))%Z in
  if Qle_bool (pow2 l) (Qabs q) then l else (l - 1)%Z.

(** The exponent of the last place of the doubles around [q]: 53
    significant digits, and never below the subnormal spacing [2^-1074]. *)
Definition last_place (q : Q) : Z := Z.max (ilog2 q - 52) (-1074).

(** Rounding to the nearest number with that last place, ties to the even
    mantissa; the result is in lowest terms.  The exponent is not bounded
    above here, [b64] looks after that. *)
Definition rnd (q : Q) : Q :=
  let c := Qred q in
  if Qeq_bool c 0 then 0
  else Qred (inject_Z (py_round (c / pow2 (last_place c)))
             * pow2 (last_place c)).

(** The value of a float operation.  The sign of an infinity is not kept:
    nothing in the widget looks at it. *)
Inductive float :=
| Finite (q : Q)
| Infinite
| NaN.

(** The double an exact result [q] is rounded to: infinite from [2^1024]
    on. *)
Definition b64 (q : Q) : float :=
  let r := rnd q in
  if Qle_bool (pow2 1024) (Qabs r) then Infinite else Finite r.

(** ** Events: the dict handed over by ipyevents, one optional field per key
    the widget reads. *)

Record Event := {
  event : option string;
  offsetX : option Z;
  offsetY : option Z;
  boundingRectWidth : option Q;
  boundingRectHeight : option Q;
  touch_event : option bool;
  timeStamp : option Q;
  button : option Z;
  key : option string;
  shiftKey : option bool;
  ctrlKey : option bool;
  altKey : option bool;
  deltaY : option Q
}.

(** In-place assignments [event['offsetX'] = v] and [event['offsetY'] = v]. *)
Definition assign_offsetX (v : Z) (e : Event) : Event :=
  {| event := event e; offsetX := Some v; offsetY := offsetY e;
     boundingRectWidth := boundingRectWidth e;
     boundingRectHeight := boundingRectHeight e;
     touch_event := touch_event e; timeStamp := timeStamp e;
     button := button e; key := key e; shiftKey := shiftKey e;
     ctrlKey := ctrlKey e; altKey := altKey e; deltaY := deltaY e |}.

Definition assign_offsetY (v : Z) (e : Event) : Event :=
  {| event := event e; offsetX := offsetX e; offsetY := Some v;
     boundingRectWidth := boundingRectWidth e;
     boundingRectHeight := boundingRectHeight e;
     touch_event := touch_event e; timeStamp := timeStamp e;
     button := button e; key := key e; shiftKey := shiftKey e;
     ctrlKey := ctrlKey e; altKey := altKey e; deltaY := deltaY e |}.

(** ** Exceptions *)

Inductive exn :=
| KeyError (k : string)
| IndexError
| TypeError
| ZeroDivisionError
| OverflowError (msg : string)
| ValueError (msg : string)
| Failure (msg : string).   (* raised by a collaborator *)

(** [str(e)] *)
Definition str (e : exn) : string :=
  match e with
  | KeyError k => String.append "'" (String.append k "'")
  | IndexError => "list index out of range"
  | TypeError => "unsupported operand type(s)"
  | ZeroDivisionError => "float division by zero"
  | OverflowError msg => msg
  | ValueError msg => msg
  | Failure msg => msg
  end.

Inductive Res (A : Type) :=
| Ok (a : A)
| Raise (e : exn).
Arguments Ok {A} a.
Arguments Raise {A} e.

(** ** Calls into the collaborators *)

Inductive call :=
(* vtkRenderWindowInteractor *)
| SetKeySym (sym : string)
| SetKeyCode (k : string)
| SetRepeatCount (n : Z)
| SetEventPosition (x y : Z)
| SetShiftKey (b : bool)
| SetControlKey (b : bool)
| SetAltKey (b : bool)
| MouseMoveEvent
| EnterEvent
| LeaveEvent
| LeftButtonPressEvent
| RightButtonPressEvent
| MiddleButtonPressEvent
| LeftButtonReleaseEvent
| RightButtonReleaseEvent
| MiddleButtonReleaseEvent
| KeyPressEvent
| CharEvent
| KeyReleaseEvent
| MouseWheelForwardEvent
| MouseWheelBackwardEvent
(* vtkRenderWindow *)
| GetInteractor
| SetOffScreenRendering (n : Z)
| GetSize
| Render
| GetRGBACharPixelData (x0 y0 x1 y1 : Z)
(* PIL encoder and the canvas host *)
| save_JPEG (quality : Q)
| draw_image (w h : Z)
(* the base class and the user's callback *)
| super_init
| super_close
| on_close
(* markers: the throttled wrappers [full_render] and [quick_render]
   have been called (before the rate limiter decides) *)
| full_render_called
| quick_render_called.

(** ** The widget object *)

Record Widget := {
  _quality : Q;
  transparent_background : bool;
  _touching : bool;
  _last_touch : Q;
  last_render_time : Q;
  quick_render_delay_sec : Q;
  quick_render_delay_sec_range : Q * Q;
  adaptive_render_delay : bool;
  last_mouse_move_event : option Event;
  track_mouse_move : bool;
  message_timestamp_offset : option Q;
  width : Z;
  height : Z;
  dragging : bool;
  watched_wheel : bool;       (* 'wheel' in interaction_events.watched_events *)
  error : option string;
  log_events : bool;
  logged_events : list Event;
  elapsed_times : list Q;
  age_of_processed_messages : list (Q * Q);
  _on_close : bool            (* true: the user's callable; false: lambda: None *)
}.

(** The attributes [_has_moved], [_stuff] and [_first_render_time] are
    written but never read, and have no field. *)

(** Attribute assignments [self.x = v]. *)

Definition upd_touching (v : bool) (s : Widget) : Widget :=
  {| _quality := _quality s;
     transparent_background := transparent_background s; _touching := v;
     _last_touch := _last_touch s; last_render_time := last_render_time s;
     quick_render_delay_sec := quick_render_delay_sec s;
     quick_render_delay_sec_range := quick_render_delay_sec_range s;
     adaptive_render_delay := adaptive_render_delay s;
     last_mouse_move_event := last_mouse_move_event s;
     track_mouse_move := track_mouse_move s;
     message_timestamp_offset := message_timestamp_offset s;
     width := width s; height := height s; dragging := dragging s;
     watched_wheel := watched_wheel s; error := error s;
     log_events := log_events s; logged_events := logged_events s;
     elapsed_times := elapsed_times s;
     age_of_processed_messages := age_of_processed_messages s;
     _on_close := _on_close s |}.

Definition upd_last_touch (v : Q) (s : Widget) : Widget :=
  {| _quality := _quality s;
     transparent_background := transparent_background s;
     _touching := _touching s; _last_touch := v;
     last_render_time := last_render_time s;
     quick_render_delay_sec := quick_render_delay_sec s;
     quick_render_delay_sec_range := quick_render_delay_sec_range s;
     adaptive_render_delay := adaptive_render_delay s;
     last_mouse_move_event := last_mouse_move_event s;
     track_mouse_move := track_mouse_move s;
     message_timestamp_offset := message_timestamp_offset s;
     width := width s; height := height s; dragging := dragging s;
     watched_wheel := watched_wheel s; error := error s;
     log_events := log_events s; logged_events := logged_events s;
     elapsed_times := elapsed_times s;
     age_of_processed_messages := age_of_processed_messages s;
     _on_close := _on_close s |}.

Definition upd_last_render_time (v : Q) (s : Widget) : Widget :=
  {| _quality := _quality s;
     transparent_background := transparent_background s;
     _touching := _touching s; _last_touch := _last_touch s;
     last_render_time := v;
     quick_render_delay_sec := quick_render_delay_sec s;
     quick_render_delay_sec_range := quick_render_delay_sec_range s;
     adaptive_render_delay := adaptive_render_delay s;
     last_mouse_move_event := last_mouse_move_event s;
     track_mouse_move := track_mouse_move s;
     message_timestamp_offset := message_timestamp_offset s;
     width := width s; height := height s; dragging := dragging s;
     watched_wheel := watched_wheel s; error := error s;
     log_events := log_events s; logged_events := logged_events s;
     elapsed_times := elapsed_times s;
     age_of_processed_messages := age_of_processed_messages s;
     _on_close := _on_close s |}.

Definition upd_quick_render_delay_sec (v : Q) (s : Widget) : Widget :=
  {| _quality := _quality s;
     transparent_background := transparent_background s;
     _touching := _touching s; _last_touch := _last_touch s;
     last_render_time := last_render_time s; quick_render_delay_sec := v;
     quick_render_delay_sec_range := quick_render_delay_sec_range s;
     adaptive_render_delay := adaptive_render_delay s;
     last_mouse_move_event := last_mouse_move_event s;
     track_mouse_move := track_mouse_move s;
     message_timestamp_offset := message_timestamp_offset s;
     width := width s; height := height s; dragging := dragging s;
     watched_wheel := watched_wheel s; error := error s;
     log_events := log_events s; logged_events := logged_events s;
     elapsed_times := elapsed_times s;
     age_of_processed_messages := age_of_processed_messages s;
     _on_close := _on_close s |}.

Definition upd_last_mouse_move_event (v : option Event) (s : Widget) : Widget :=
  {| _quality := _quality s;
     transparent_background := transparent_background s;
     _touching := _touching s; _last_touch := _last_touch s;
     last_render_time := last_render_time s;
     quick_render_delay_sec := quick_render_delay_sec s;
     quick_render_delay_sec_range := quick_render_delay_sec_range s;
     adaptive_render_delay := adaptive_render_delay s;
     last_mouse_move_event := v; track_mouse_move := track_mouse_move s;
     message_timestamp_offset := message_timestamp_offset s;
     width := width s; height := height s; dragging := dragging s;
     watched_wheel := watched_wheel s; error := error s;
     log_events := log_events s; logged_events := logged_events s;
     elapsed_times := elapsed_times s;
     age_of_processed_messages := age_of_processed_messages s;
     _on_close := _on_close s |}.

Definition upd_message_timestamp_offset (v : option Q) (s : Widget) : Widget :=
  {| _quality := _quality s;
     transparent_background := transparent_background s;
     _touching := _touching s; _last_touch := _last_touch s;
     last_render_time := last_render_time s;
     quick_render_delay_sec := quick_render_delay_sec s;
     quick_render_delay_sec_range := quick_render_delay_sec_range s;
     adaptive_render_delay := adaptive_render_delay s;
     last_mouse_move_event := last_mouse_move_event s;
     track_mouse_move := track_mouse_move s; message_timestamp_offset := v;
     width := width s; height := height s; dragging := dragging s;
     watched_wheel := watched_wheel s; error := error s;
     log_events := log_events s; logged_events := logged_events s;
     elapsed_times := elapsed_times s;
     age_of_processed_messages := age_of_processed_messages s;
     _on_close := _on_close s |}.

Definition upd_dragging (v : bool) (s : Widget) : Widget :=
  {| _quality := _quality s;
     transparent_background := transparent_background s;
     _touching := _touching s; _last_touch := _last_touch s;
     last_render_time := last_render_time s;
     quick_render_delay_sec := quick_render_delay_sec s;
     quick_render_delay_sec_range := quick_render_delay_sec_range s;
     adaptive_render_delay := adaptive_render_delay s;
     last_mouse_move_event := last_mouse_move_event s;
     track_mouse_move := track_mouse_move s;
     message_timestamp_offset := message_timestamp_offset s;
     width := width s; height := height s; dragging := v;
     watched_wheel := watched_wheel s; error := error s;
     log_events := log_events s; logged_events := logged_events s;
     elapsed_times := elapsed_times s;
     age_of_processed_messages := age_of_processed_messages s;
     _on_close := _on_close s |}.

Definition upd_error (v : option string) (s : Widget) : Widget :=
  {| _quality := _quality s;
     transparent_background := transparent_background s;
     _touching := _touching s; _last_touch := _last_touch s;
     last_render_time := last_render_time s;
     quick_render_delay_sec := quick_render_delay_sec s;
     quick_render_delay_sec_range := quick_render_delay_sec_range s;
     adaptive_render_delay := adaptive_render_delay s;
     last_mouse_move_event := last_mouse_move_event s;
     track_mouse_move := track_mouse_move s;
     message_timestamp_offset := message_timestamp_offset s;
     width := width s; height := height s; dragging := dragging s;
     watched_wheel := watched_wheel s; error := v;
     log_events := log_events s; logged_events := logged_events s;
     elapsed_times := elapsed_times s;
     age_of_processed_messages := age_of_processed_messages s;
     _on_close := _on_close s |}.

Definition upd_logged_events (v : list Event) (s : Widget) : Widget :=
  {| _quality := _quality s;
     transparent_background := transparent_background s;
     _touching := _touching s; _last_touch := _last_touch s;
     last_render_time := last_render_time s;
     quick_render_delay_sec := quick_render_delay_sec s;
     quick_render_delay_sec_range := quick_render_delay_sec_range s;
     adaptive_render_delay := adaptive_render_delay s;
     last_mouse_move_event := last_mouse_move_event s;
     track_mouse_move := track_mouse_move s;
     message_timestamp_offset := message_timestamp_offset s;
     width := width s; height := height s; dragging := dragging s;
     watched_wheel := watched_wheel s; error := error s;
     log_events := log_events s; logged_events := v;
     elapsed_times := elapsed_times s;
     age_of_processed_messages := age_of_processed_messages s;
     _on_close := _on_close s |}.

Definition upd_elapsed_times (v : list Q) (s : Widget) : Widget :=
  {| _quality := _quality s;
     transparent_background := transparent_background s;
     _touching := _touching s; _last_touch := _last_touch s;
     last_render_time := last_render_time s;
     quick_render_delay_sec := quick_render_delay_sec s;
     quick_render_delay_sec_range := quick_render_delay_sec_range s;
     adaptive_render_delay := adaptive_render_delay s;
     last_mouse_move_event := last_mouse_move_event s;
     track_mouse_move := track_mouse_move s;
     message_timestamp_offset := message_timestamp_offset s;
     width := width s; height := height s; dragging := dragging s;
     watched_wheel := watched_wheel s; error := error s;
     log_events := log_events s; logged_events := logged_events s;
     elapsed_times := v;
     age_of_processed_messages := age_of_processed_messages s;
     _on_close := _on_close s |}.

Definition upd_age_of_processed_messages (v : list (Q * Q)) (s : Widget) : Widget :=
  {| _quality := _quality s;
     transparent_background := transparent_background s;
     _touching := _touching s; _last_touch := _last_touch s;
     last_render_time := last_render_time s;
     quick_render_delay_sec := quick_render_delay_sec s;
     quick_render_delay_sec_range := quick_render_delay_sec_range s;
     adaptive_render_delay := adaptive_render_delay s;
     last_mouse_move_event := last_mouse_move_event s;
     track_mouse_move := track_mouse_move s;
     message_timestamp_offset := message_timestamp_offset s;
     width := width s; height := height s; dragging := dragging s;
     watched_wheel := watched_wheel s; error := error s;
     log_events := log_events s; logged_events := logged_events s;
     elapsed_times := elapsed_times s; age_of_processed_messages := v;
     _on_close := _on_close s |}.

(** ** The world: the widget, the two rate limiters and the environment *)

Record World := {
  self : Widget;
  full_render_last_call : Q;    (* state of the limiter around full_render *)
  quick_render_last_call : Q;   (* state of the limiter around quick_render *)
  ticks : nat;                  (* calls of time.time() so far *)
  attempts : nat;               (* calls into collaborators so far *)
  trace : list call             (* the calls that completed, oldest first *)
}.

Definition on_self (f : Widget -> Widget) (w : World) : World :=
  {| self := f (self w);
     full_render_last_call := full_render_last_call w;
     quick_render_last_call := quick_render_last_call w;
     ticks := ticks w; attempts := attempts w; trace := trace w |}.

Definition upd_full_render_last_call (v : Q) (w : World) : World :=
  {| self := self w;
     full_render_last_call := v;
     quick_render_last_call := quick_render_last_call w;
     ticks := ticks w; attempts := attempts w; trace := trace w |}.

Definition upd_quick_render_last_call (v : Q) (w : World) : World :=
  {| self := self w;
     full_render_last_call := full_render_last_call w;
     quick_render_last_call := v;
     ticks := ticks w; attempts := attempts w; trace := trace w |}.

Definition tick (w : World) : World :=
  {| self := self w;
     full_render_last_call := full_render_last_call w;
     quick_render_last_call := quick_render_last_call w;
     ticks := S (ticks w); attempts := attempts w; trace := trace w |}.

Definition bump (w : World) : World :=
  {| self := self w;
     full_render_last_call := full_render_last_call w;
     quick_render_last_call := quick_render_last_call w;
     ticks := ticks w; attempts := S (attempts w); trace := trace w |}.

Definition emit (c : call) (w : World) : World :=
  {| self := self w;
     full_render_last_call := full_render_last_call w;
     quick_render_last_call := quick_render_last_call w;
     ticks := ticks w; attempts := attempts w; trace := trace w ++ [c] |}.

(** ** A state-and-exception monad for the methods *)

Definition M (A : Type) : Type := World -> Res A * World.

Definition ret {A} (a : A) : M A := fun w => (Ok a, w).

Definition bind {A B} (m : M A) (k : A -> M B) : M B :=
  fun w => match m w with
           | (Ok a, w') => k a w'
           | (Raise e, w') => (Raise e, w')
           end.

Definition raise {A} (e : exn) : M A := fun w => (Raise e, w).

(** [try: m  except Exception as e: h e] *)
Definition try_except {A} (m : M A) (h : exn -> M A) : M A :=
  fun w => match m w with
           | (Ok a, w') => (Ok a, w')
           | (Raise e, w') => h e w'
           end.

Definition get_self : M Widget := fun w => (Ok (self w), w).
Definition gets {A} (f : World -> A) : M A := fun w => (Ok (f w), w).
Definition modify (f : World -> World) : M unit := fun w => (Ok tt, f w).
Definition assign (f : Widget -> Widget) : M unit := modify (on_self f).

Notation "x <- m ;; k" := (bind m (fun x => k))
  (at level 61, m at next level, right associativity).
Notation "m ;; k" := (bind m (fun _ => k))
  (at level 61, right associativity).

(** [d[k]] on a dict: a missing key raises KeyError. *)
Definition item {A} (k : string) (o : option A) : M A :=
  match o with
  | Some v => ret v
  | None => raise (KeyError k)
  end.

Definition when (b : bool) (m : M unit) : M unit := if b then m else ret tt.

Definition res_of {A} (r : Res A * World) : Res A := fst r.
Definition world_of {A} (r : Res A * World) : World := snd r.

(** ** The methods of ViewInteractiveWidget *)

Section Viewer.

(** The wall clock: [time_at n] is what the [n]-th [time.time()] returns. *)
Variable time_at : nat -> Q.

(** The collaborators: [fault n c = Some msg] when the [n]-th call into a
    collaborator, being the call [c], raises an exception with message
    [msg]. *)
Variable fault : nat -> call -> option string.

(** The table [KEY_TO_SYM] of constants.py, which is not among the
    sources: a dict from key names to VTK key symbols. *)
Variable KEY_TO_SYM : string -> option string.

Definition time : M Q := fun w => (Ok (time_at (ticks w)), tick w).

(** A call into a collaborator: it raises when the environment says so,
    otherwise it completes and is recorded. *)
Definition ext (c : call) : M unit :=
  fun w => match fault (attempts w) c with
           | Some msg => (Raise (Failure msg), bump w)
           | None => (Ok tt, emit c (bump w))
           end.

(** The property [interactor]: dereference the weak reference to the
    render window (RuntimeError when it is gone) and ask it for its
    interactor.  Nothing is injected, so nothing is recorded. *)
Definition interactor : M unit :=
  fun w => match fault (attempts w) GetInteractor with
           | Some msg => (Raise (Failure msg), bump w)
           | None => (Ok tt, bump w)
           end.

Definition mark (c : call) : M unit := modify (emit c).

(** Modelled from the spec: the decorator [throttle] of throttler.py is not
    among the sources.  The spec describes it as an explicit last-call
    timestamp checked before the wrapped function runs, with
    drop-if-too-soon (not queue-and-delay) semantics: at most one call per
    [wait] seconds goes through, the others do nothing. *)
Definition throttle (wait : Q) (last : World -> Q)
    (upd_last : Q -> World -> World) (fn : M unit) : M unit :=
  now <- time ;;
  last_call <- gets last ;;
  if Qle_bool wait (now - last_call)
  then modify (upd_last now) ;; fn
  else ret tt.

Definition set_quick_render_delay (delay_sec : Q) : M unit :=
  s <- get_self ;;
  let delay_sec :=
    if Qltb delay_sec (fst (quick_render_delay_sec_range s))
    then fst (quick_render_delay_sec_range s)
    else if Qltb (snd (quick_render_delay_sec_range s)) delay_sec
         then snd (quick_render_delay_sec_range s)
         else delay_sec in
  assign (upd_quick_render_delay_sec delay_sec).

(** [get_image] and [_fast_image] are inlined: an optional Render, the
    pixel read-back, then the JPEG encoding and the delivery to the
    canvas. *)
Definition update_canvas (force_render : bool) : M unit :=
  when force_render (ext Render) ;;
  s <- get_self ;;
  ext (GetRGBACharPixelData 0 0 (width s - 1) (height s - 1)) ;;
  ext (save_JPEG (_quality s)) ;;
  ext (draw_image (width s) (height s)).

(** The body of the [try] of [full_render]. *)
Definition full_render_body : M unit :=
  tstart <- time ;;
  update_canvas true ;;
  now <- time ;;
  assign (upd_last_render_time now) ;;
  _ <- time ;;                          (* the argument of log.debug *)
  ret tt.

Definition full_render_fn : M unit :=
  try_except full_render_body
             (fun e => assign (upd_error (Some (str e)))).

Definition full_render : M unit :=
  mark full_render_called ;;
  throttle (1 # 10) full_render_last_call upd_full_render_last_call
           full_render_fn.

(** The body of the [try] of [update_interactor_event_data]. *)
Definition update_interactor_event_data_body (ev : Event) : M unit :=
  name <- item "event" (event ev) ;;
  (if String.eqb name "keydown" || String.eqb name "keyup"
   then
     k <- item "key" (key ev) ;;
     let sym := match KEY_TO_SYM k with Some s => s | None => k end in
     interactor ;; ext (SetKeySym sym) ;;
     when (Nat.eqb (String.length k) 1)
          (interactor ;; ext (SetKeyCode k)) ;;
     interactor ;; ext (SetRepeatCount 1)
   else
     interactor ;;
     x <- item "offsetX" (offsetX ev) ;;
     s <- get_self ;;
     y <- item "offsetY" (offsetY ev) ;;
     ext (SetEventPosition x (height s - y))) ;;
  match shiftKey ev with
  | Some b => interactor ;; ext (SetShiftKey b)
  | None => ret tt
  end ;;
  match ctrlKey ev with
  | Some b => interactor ;; ext (SetControlKey b)
  | None => ret tt
  end ;;
  match altKey ev with
  | Some b => interactor ;; ext (SetAltKey b)
  | None => ret tt
  end.

Definition update_interactor_event_data (ev : Event) : M unit :=
  try_except (update_interactor_event_data_body ev)
             (fun e => assign (upd_error (Some (str e)))).

Definition send_pending_mouse_move_event : M unit :=
  s <- get_self ;;
  match last_mouse_move_event s with
  | Some ev =>
      update_interactor_event_data ev ;;
      interactor ;; ext MouseMoveEvent ;;
      assign (upd_last_mouse_move_event None)
  | None => ret tt
  end.

(** The body of the [try] of [quick_render]. *)
Definition quick_render_body : M unit :=
  send_pending_mouse_move_event ;;
  update_canvas true ;;
  s <- get_self ;;
  when (log_events s)
       (now <- time ;;
        s <- get_self ;;
        assign (upd_elapsed_times
                  (elapsed_times s ++ [now - last_render_time s]))) ;;
  now <- time ;;
  assign (upd_last_render_time now).

Definition quick_render_fn : M unit :=
  try_except quick_render_body
             (fun e => assign (upd_error (Some (str e)))).

Definition quick_render : M unit :=
  mark quick_render_called ;;
  throttle (1 # 100) quick_render_last_call upd_quick_render_last_call
           quick_render_fn.

(** *** handle_interaction_event

    The branches of the method are given one definition each, named after
    the event they serve. *)

(** The float arithmetic of lines 305-308.  The canvas size and the
    offsets are ints, the sizes of the bounding rect are floats.  (An
    integral JSON number arrives as an int; for it the operators below
    give the same results as for the float of that value as long as the
    ints involved are doubles, that is up to [2^53] in magnitude.) *)

(** The conversion [/] and [*] apply to an int operand when the other
    operand is a float. *)
Definition int_to_float (z : Z) : Res Q :=
  match b64 (inject_Z z) with
  | Finite q => Ok q
  | _ => Raise (OverflowError "int too large to convert to float")
  end.

(** [a / b] on floats: only a zero divisor raises, a quotient too large
    is infinite. *)
Definition float_div (a b : Q) : Res float :=
  if Qeq_bool b 0 then Raise ZeroDivisionError else Ok (b64 (a / b)).

(** [a * b] on floats, for a finite [a]: never raises. *)
Definition float_mul (a : Q) (b : float) : float :=
  match b with
  | Finite s => b64 (a * s)
  | Infinite => if Qeq_bool a 0 then NaN else Infinite
  | NaN => NaN
  end.

(** [round(f)] on a float: an int, exact on what is finite. *)
Definition float_round (f : float) : Res Z :=
  match f with
  | Finite q => Ok (py_round q)
  | Infinite =>
      Raise (OverflowError "cannot convert float infinity to integer")
  | NaN => Raise (ValueError "cannot convert float NaN to integer")
  end.

(** Lines 305 and 307: [self.width / event['boundingRectWidth']]. *)
Definition scale_of (size : Z) (rect : Q) : Res float :=
  match int_to_float size with
  | Raise e => Raise e
  | Ok a => float_div a rect
  end.

(** Lines 306 and 308: [event['offsetX'] * scale_x], and its [round]. *)
Definition offset_times (off : Z) (scale : float) : Res float :=
  match int_to_float off with
  | Raise e => Raise e
  | Ok a => Ok (float_mul a scale)
  end.

Definition scaled_offset (off : Z) (scale : float) : Res Z :=
  match offset_times off scale with
  | Raise e => Raise e
  | Ok p => float_round p
  end.

(** Lines 304-308: the offsets are rescaled in place.  The second
    component is the exception raised on the way, if any; the dict keeps
    the assignments made before it. *)
Definition rescale_offsets (W H : Z) (ev : Event) : Event * option exn :=
  match offsetX ev, boundingRectWidth ev with
  | Some x, Some bw =>
      match scale_of W bw with
      | Raise e => (ev, Some e)
      | Ok scale_x =>
          match scaled_offset x scale_x with
          | Raise e => (ev, Some e)
          | Ok x' =>
              let ev1 := assign_offsetX x' ev in
              match boundingRectHeight ev1 with
              | None => (ev1, Some (KeyError "boundingRectHeight"))
              | Some bh =>
                  match scale_of H bh with
                  | Raise e => (ev1, Some e)
                  | Ok scale_y =>
                      match offsetY ev1 with
                      | None => (ev1, Some (KeyError "offsetY"))
                      | Some y =>
                          match scaled_offset y scale_y with
                          | Raise e => (ev1, Some e)
                          | Ok y' => (assign_offsetY y' ev1, None)
                          end
                      end
                  end
              end
          end
      end
  | _, _ => (ev, None)
  end.

(** Lines 324-338: the adaptive render delay. *)
Definition adapt_render_delay (ev : Event) : M unit :=
  now <- time ;;
  ts <- item "timeStamp" (timeStamp ev) ;;
  s <- get_self ;;
  match message_timestamp_offset s with
  | None => raise TypeError
  | Some offset =>
      let ageOfProcessedMessage := now - (ts * (1 # 1000) + offset) in
      (if Qltb ((3 # 2) * quick_render_delay_sec s) ageOfProcessedMessage
       then set_quick_render_delay (quick_render_delay_sec s * (21 # 20))
       else if Qltb ageOfProcessedMessage
                    ((1 # 2) * quick_render_delay_sec s)
            then set_quick_render_delay
                   (quick_render_delay_sec s / (21 # 20))
            else ret tt) ;;
      s <- get_self ;;
      when (log_events s)
           (assign (upd_age_of_processed_messages
                      (age_of_processed_messages s
                         ++ [(ageOfProcessedMessage,
                              quick_render_delay_sec s)])))
  end.

(** Lines 315-318: the offset between the clock of the events and the
    local clock, taken when there is none yet. *)
Definition capture_timestamp_offset (ev : Event) : M unit :=
  s <- get_self ;;
  match message_timestamp_offset s with
  | None =>
      now <- time ;;
      ts <- item "timeStamp" (timeStamp ev) ;;
      assign (upd_message_timestamp_offset (Some (now - ts * (1 # 1000))))
  | Some _ => ret tt
  end.

Definition on_mousemove (ev : Event) : M unit :=
  capture_timestamp_offset ev ;;
  assign (upd_last_mouse_move_event (Some ev)) ;;
  s <- get_self ;;
  if negb (dragging s) && negb (track_mouse_move s) then ret tt else
  when (adaptive_render_delay s && negb (_touching s))
       (adapt_render_delay ev) ;;
  now <- time ;;
  s <- get_self ;;
  when (Qltb (quick_render_delay_sec s) (now - last_render_time s))
       quick_render.

Definition on_mouseenter (ev : Event) : M unit :=
  update_interactor_event_data ev ;;
  interactor ;; ext EnterEvent ;;
  assign (upd_last_mouse_move_event None).

Definition on_mouseleave (ev : Event) : M unit :=
  update_interactor_event_data ev ;;
  interactor ;; ext LeaveEvent ;;
  assign (upd_last_mouse_move_event None) ;;
  s <- get_self ;;
  when (dragging s)
       (interactor ;; ext LeftButtonReleaseEvent ;;
        assign (upd_dragging false)) ;;
  full_render.

Definition on_mousedown (ev : Event) : M unit :=
  assign (upd_dragging true) ;;
  send_pending_mouse_move_event ;;
  update_interactor_event_data ev ;;
  b <- item "button" (button ev) ;;
  (if (b =? 0)%Z then interactor ;; ext LeftButtonPressEvent
   else if (b =? 2)%Z then interactor ;; ext RightButtonPressEvent
   else if (b =? 1)%Z then interactor ;; ext MiddleButtonPressEvent
   else ret tt) ;;
  full_render.

Definition on_mouseup (ev : Event) : M unit :=
  send_pending_mouse_move_event ;;
  update_interactor_event_data ev ;;
  b <- item "button" (button ev) ;;
  (if (b =? 0)%Z then interactor ;; ext LeftButtonReleaseEvent
   else if (b =? 2)%Z then interactor ;; ext RightButtonReleaseEvent
   else if (b =? 1)%Z then interactor ;; ext MiddleButtonReleaseEvent
   else ret tt) ;;
  assign (upd_dragging false) ;;
  full_render.

(** [key != "Shift" and key != "Control" and key != "Alt"] *)
Definition not_a_modifier (k : string) : bool :=
  negb (String.eqb k "Shift") && negb (String.eqb k "Control")
  && negb (String.eqb k "Alt").

Definition on_keydown (ev : Event) : M unit :=
  send_pending_mouse_move_event ;;
  update_interactor_event_data ev ;;
  interactor ;; ext KeyPressEvent ;;
  interactor ;; ext CharEvent ;;
  k <- item "key" (key ev) ;;
  when (not_a_modifier k) full_render.

Definition on_keyup (ev : Event) : M unit :=
  send_pending_mouse_move_event ;;
  update_interactor_event_data ev ;;
  interactor ;; ext KeyReleaseEvent ;;
  k <- item "key" (key ev) ;;
  when (not_a_modifier k) full_render.

Definition on_wheel (ev : Event) : M unit :=
  s <- get_self ;;
  when (watched_wheel s)
       (send_pending_mouse_move_event ;;
        update_interactor_event_data ev ;;
        d <- item "deltaY" (deltaY ev) ;;
        (if Qltb d 0 then interactor ;; ext MouseWheelForwardEvent
         else interactor ;; ext MouseWheelBackwardEvent) ;;
        full_render).

(** Lines 311-406: the body of the [try]. *)
Definition dispatch (event_name : string) (ev : Event) : M unit :=
  s <- get_self ;;
  if _touching s && match touch_event ev with None => true | _ => false end
  then ret tt
  else if String.eqb event_name "mousemove" then on_mousemove ev
  else if String.eqb event_name "mouseenter" then on_mouseenter ev
  else if String.eqb event_name "mouseleave" then on_mouseleave ev
  else if String.eqb event_name "mousedown" then on_mousedown ev
  else if String.eqb event_name "mouseup" then on_mouseup ev
  else if String.eqb event_name "keydown" then on_keydown ev
  else if String.eqb event_name "keyup" then on_keyup ev
  else if String.eqb event_name "wheel" then on_wheel ev
  else ret tt.

Definition log_event (ev : Event) : M unit :=
  s <- get_self ;;
  when (log_events s)
       (assign (upd_logged_events (logged_events s ++ [ev]))).

(** The event dict is appended to [logged_events] before it is rescaled in
    place, and the list holds the dict itself, not a copy: the entry of the
    log therefore shows the dict as the rescaling left it.  Every event
    delivered to the widget is a dict of its own. *)
Definition handle_interaction_event (ev : Event) : M unit :=
  s <- get_self ;;
  match event ev with
  | None => log_event ev ;; raise (KeyError "event")
  | Some event_name =>
      let (ev', failure) := rescale_offsets (width s) (height s) ev in
      log_event ev' ;;
      match failure with
      | Some e => raise e
      | None =>
          try_except (dispatch event_name ev')
                     (fun e => assign (upd_error (Some (str e))))
      end
  end.

(** *** Touch callbacks of the canvas *)

Definition touch_dict (name : string) (x y : option Z) (now : Q)
    (b : option Z) : Event :=
  {| event := Some name; offsetX := x; offsetY := y;
     boundingRectWidth := None; boundingRectHeight := None;
     touch_event := Some true; timeStamp := Some now; button := b;
     key := None; shiftKey := None; ctrlKey := None; altKey := None;
     deltaY := None |}.

Definition _on_touch_start (locs : list (Q * Q)) : M unit :=
  assign (upd_touching true) ;;
  match locs with
  | nil => raise IndexError
  | (x, y) :: _ =>
      now <- time ;;
      handle_interaction_event
        (touch_dict "mousedown" (Some (py_int x)) (Some (py_int y)) now
                    (Some 0%Z))
  end.

Definition _on_touch_end : M unit :=
  now <- time ;;
  handle_interaction_event (touch_dict "mouseup" None None now (Some 0%Z)) ;;
  assign (upd_touching false).

Definition _on_touch_move (locs : list (Q * Q)) : M unit :=
  match locs with
  | nil => raise IndexError
  | (x, y) :: _ =>
      now <- time ;;
      s <- get_self ;;
      if Qltb (now - _last_touch s) (1 # 100) then ret tt else
      now <- time ;;
      assign (upd_last_touch now) ;;
      now <- time ;;
      handle_interaction_event
        (touch_dict "mousemove" (Some (py_round x)) (Some (py_round y)) now
                    None)
  end.

(** *** Construction and teardown *)

Definition close : M unit :=
  ext super_close ;;
  s <- get_self ;;
  when (_on_close s) (ext on_close).

(** The attributes as [__init__] assigns them; [size] is what
    [GetSize()] returned and [now] the clock read for [_last_touch]. *)
Definition attributes (size : Z * Z) (now : Q)
    (log_events transparent_background allow_wheel : bool) (quality : Q)
    (on_close : bool) : Widget :=
  {| _quality := quality;
     transparent_background := transparent_background;
     _touching := false;
     _last_touch := now;
     last_render_time := 0;
     quick_render_delay_sec := 1 # 1000;
     quick_render_delay_sec_range := (1 # 1000, 2);
     adaptive_render_delay := true;
     last_mouse_move_event := None;
     track_mouse_move := false;
     message_timestamp_offset := None;
     width := fst size;
     height := snd size;
     dragging := false;
     watched_wheel := allow_wheel;
     error := None;
     log_events := log_events;
     logged_events := nil;
     elapsed_times := nil;
     age_of_processed_messages := nil;
     _on_close := on_close |}.

(** [__init__]: the calls into the render window and the canvas and the
    clock reads are in the order of the source; the attributes, which the
    source assigns one by one between them, are assigned together before
    the first render, the only step of the constructor that reads them.
    The registration of the handlers with ipyevents and with the canvas is
    left out. *)
Definition __init__ (size : Z * Z)
    (log_events transparent_background allow_wheel : bool) (quality : Q)
    (on_close : bool) : M unit :=
  ext super_init ;;
  if Qltb quality 0 || Qltb 100 quality
  then raise (ValueError "`quality` parameter must be between 0 and 100")
  else
    ext (SetOffScreenRendering 1) ;;
    now <- time ;;
    ext GetSize ;;
    assign (fun _ => attributes size now log_events transparent_background
                                allow_wheel quality on_close) ;;
    tstart <- time ;;
    update_canvas true ;;
    _ <- time ;;
    ret tt.

(** *** Sessions: what the host delivers to the widget *)

Inductive input :=
| dom_event (ev : Event)
| touch_start (locs : list (Q * Q))
| touch_end
| touch_move (locs : list (Q * Q)).

Definition deliver (i : input) : M unit :=
  match i with
  | dom_event ev => handle_interaction_event ev
  | touch_start locs => _on_touch_start locs
  | touch_end => _on_touch_end
  | touch_move locs => _on_touch_move locs
  end.

(** An exception that leaves a callback is reported by the host and the
    session goes on with the next input. *)
Fixpoint run (inputs : list input) (w : World) : World :=
  match inputs with
  | nil => w
  | i :: rest => run rest (world_of (deliver i w))
  end.

End Viewer.


(** * Vocabulary of the properties *)

(** The collaborators never raise. *)
Definition fault_free (fault : nat -> call -> option string) : Prop :=
  forall n c, fault n c = None.

(** The touch gate (line 311) lets the event through. *)
Definition gate_open (ev : Event) (w : World) : Prop :=
  _touching (self w) = false \/ touch_event ev <> None.

(** ** Classes of calls *)

(** The methods of the interactor that only set event data. *)
Definition is_setter (c : call) : bool :=
  match c with
  | SetKeySym _ | SetKeyCode _ | SetRepeatCount _ | SetEventPosition _ _
  | SetShiftKey _ | SetControlKey _ | SetAltKey _ => true
  | _ => false
  end.

(** The methods of the interactor that inject an event. *)
Definition is_injection (c : call) : bool :=
  match c with
  | MouseMoveEvent | EnterEvent | LeaveEvent
  | LeftButtonPressEvent | RightButtonPressEvent | MiddleButtonPressEvent
  | LeftButtonReleaseEvent | RightButtonReleaseEvent
  | MiddleButtonReleaseEvent
  | KeyPressEvent | CharEvent | KeyReleaseEvent
  | MouseWheelForwardEvent | MouseWheelBackwardEvent => true
  | _ => false
  end.

Definition is_interactor_call (c : call) : bool :=
  is_setter c || is_injection c.

(** What a render does, and the markers of the two render entry points. *)
Definition is_render_call (c : call) : bool :=
  match c with
  | Render | GetRGBACharPixelData _ _ _ _ | save_JPEG _ | draw_image _ _
  | full_render_called | quick_render_called => true
  | _ => false
  end.

Definition is_button_event (c : call) : bool :=
  match c with
  | LeftButtonPressEvent | RightButtonPressEvent | MiddleButtonPressEvent
  | LeftButtonReleaseEvent | RightButtonReleaseEvent
  | MiddleButtonReleaseEvent => true
  | _ => false
  end.

Definition is_on_close (c : call) : bool :=
  match c with on_close => true | _ => false end.

Definition is_save_JPEG (c : call) : bool :=
  match c with save_JPEG _ => true | _ => false end.








(** The magnitudes at which the rescaling of one axis stays among the
    finite doubles: a canvas size and an offset up to [2^53] become floats
    without rounding, and with a bounding rect no smaller than [2^-900]
    neither the scale nor the product comes near [2^1024]. *)
Definition finite_scaling (size off : Z) (rect : Q) : Prop :=
  (Z.abs size <= 2 ^ 53)%Z /\ (Z.abs off <= 2 ^ 53)%Z
  /\ pow2 (-900) <= Qabs rect.







Definition count (p : call -> bool) (t : list call) : nat :=
  List.length (filter p t).


(** ** Atomic state changes and footprints

    Every method is a sequence of the atomic changes below.  A footprint is
    a set of atoms; [reach F w w'] says that [w'] is obtained from [w] by
    atoms of [F] only. *)

Inductive atom :=
| a_tick
| a_bump
| a_emit (c : call)
| a_full_render_last_call (v : Q)
| a_quick_render_last_call (v : Q)
| a_touching (v : bool)
| a_last_touch (v : Q)
| a_last_render_time (v : Q)
| a_set_quick_render_delay (v : Q)
| a_last_mouse_move_event (v : option Event)
| a_capture_offset (v : Q)
| a_dragging (v : bool)
| a_error (v : option string)
| a_logged_events (v : list Event)
| a_elapsed_times (v : list Q)
| a_age_of_processed_messages (v : list (Q * Q)).

Definition apply_atom (a : atom) (w : World) : World :=
  match a with
  | a_tick => tick w
  | a_bump => bump w
  | a_emit c => emit c w
  | a_full_render_last_call v => upd_full_render_last_call v w
  | a_quick_render_last_call v => upd_quick_render_last_call v w
  | a_touching v => on_self (upd_touching v) w
  | a_last_touch v => on_self (upd_last_touch v) w
  | a_last_render_time v => on_self (upd_last_render_time v) w
  | a_set_quick_render_delay v => world_of (set_quick_render_delay v w)
  | a_last_mouse_move_event v => on_self (upd_last_mouse_move_event v) w
  | a_capture_offset v =>
      match message_timestamp_offset (self w) with
      | None => on_self (upd_message_timestamp_offset (Some v)) w
      | Some _ => w
      end
  | a_dragging v => on_self (upd_dragging v) w
  | a_error v => on_self (upd_error v) w
  | a_logged_events v => on_self (upd_logged_events v) w
  | a_elapsed_times v => on_self (upd_elapsed_times v) w
  | a_age_of_processed_messages v =>
      on_self (upd_age_of_processed_messages v) w
  end.

Definition footprint := atom -> bool.

Inductive reach (F : footprint) : World -> World -> Prop :=
| reach_refl w : reach F w w
| reach_step a w w' :
    F a = true -> reach F (apply_atom a w) w' -> reach F w w'.

Definition effects {A} (F : footprint) (m : M A) : Prop :=
  forall w, reach F w (world_of (m w)).

(** Setting event data: the setters of the interactor are called and the
    error field may change. *)
Definition setter_fp : footprint :=
  fun a => match a with
           | a_bump | a_error _ => true
           | a_emit c => is_setter c
           | _ => false
           end.

(** Setting event data and injecting events: the interactor is called, the
    pending move and the error field may change. *)
Definition inject_fp : footprint :=
  fun a => match a with
           | a_bump | a_error _ | a_last_mouse_move_event _ => true
           | a_emit c => is_interactor_call c
           | _ => false
           end.


(** A full render: the canvas is painted, nothing is injected. *)
Definition paint_fp : footprint :=
  fun a => match a with
           | a_tick | a_bump | a_full_render_last_call _
           | a_last_render_time _ | a_error _ => true
           | a_emit c => is_render_call c
           | _ => false
           end.

(** The render paths. *)
Definition render_fp : footprint :=
  fun a => match a with
           | a_tick | a_full_render_last_call _ | a_quick_render_last_call _
           | a_last_render_time _ | a_elapsed_times _ => true
           | a_emit c => is_interactor_call c || is_render_call c
           | _ => inject_fp a
           end.

(** The branches of the handler other than the one of mousemove: the
    render paths and the drag flag. *)
Definition button_fp : footprint :=
  fun a => match a with
           | a_dragging _ => true
           | _ => render_fp a
           end.

(** The branches of the handler: anything but the event log and the
    attributes of the touch callbacks. *)
Definition handler_fp : footprint :=
  fun a => match a with
           | a_logged_events _ | a_touching _ | a_last_touch _ => false
           | _ => true
           end.

(** Everything an input of a session can do. *)
Definition any_fp : footprint := fun _ => true.

(** ** The quick-render delay and its range *)

Definition delay_in_range (w : World) : Prop :=
  (1 # 1000) <= quick_render_delay_sec (self w)
  /\ quick_render_delay_sec (self w) <= 2.

Definition range_as_constructed (w : World) : Prop :=
  quick_render_delay_sec_range (self w) = (1 # 1000, 2).



(** The configuration of the widget: what the constructor fixes. *)
Definition config_view (w : World) :=
  (_quality (self w), transparent_background (self w),
   (width (self w), height (self w)),
   quick_render_delay_sec_range (self w),
   (adaptive_render_delay (self w), track_mouse_move (self w)),
   (watched_wheel (self w), log_events (self w), _on_close (self w))).

(** The event that [handle_interaction_event] appends to the log: the
    event as the rescaling left it; the event itself when it has no name. *)
Definition logged_form (w : World) (ev : Event) : Event :=
  match event ev with
  | Some _ => fst (rescale_offsets (width (self w)) (height (self w)) ev)
  | None => ev
  end.

(** What the render paths leave alone: the delay controller, the drag state
    and the size of the canvas. *)
Definition controller_state (w : World) :=
  (quick_render_delay_sec (self w), quick_render_delay_sec_range (self w),
   message_timestamp_offset (self w),
   (dragging (self w), _touching (self w)),
   (width (self w), height (self w))).

(** ** Repeated teardown *)

Fixpoint close_times (fault : nat -> call -> option string) (n : nat)
    (w : World) : World :=
  match n with
  | O => w
  | S k => close_times fault k (world_of (close fault w))
  end.

(** ** A concrete session, for examples *)

(** A clock that advances by 0.1 ms at every reading. *)
Definition example_clock (n : nat) : Q :=
  1000 + inject_Z (Z.of_nat n) * (1 # 10000).


Definition no_fault (n : nat) (c : call) : option string := None.


Definition example_syms (k : string) : option string :=
  if String.eqb k "ArrowUp" then Some "Up" else None.

(** The widget as constructed over a 200 x 100 render window, with the
    default arguments and a cleanup callback. *)
Definition fresh_world : World :=
  {| self := attributes (200, 100)%Z 1000 true false true 80 true;
     full_render_last_call := 1000;
     quick_render_last_call := 1000;
     ticks := 0; attempts := 0; trace := [] |}.

Definition pointer (name : string) (x y b : Z) (ts : Q) : Event :=
  {| event := Some name; offsetX := Some x; offsetY := Some y;
     boundingRectWidth := None; boundingRectHeight := None;
     touch_event := None; timeStamp := Some ts; button := Some b;
     key := None; shiftKey := None; ctrlKey := None; altKey := None;
     deltaY := None |}.

Definition keyboard (name k : string) (ts : Q) : Event :=
  {| event := Some name; offsetX := None; offsetY := None;
     boundingRectWidth := None; boundingRectHeight := None;
     touch_event := None; timeStamp := Some ts; button := None;
     key := Some k; shiftKey := Some false; ctrlKey := Some false;
     altKey := Some false; deltaY := None |}.

(** The event of the rescaling example: offsetX = 50 in a bounding rect 100
    wide (and offsetY = 10 in a bounding rect 50 high). *)
Definition enter_event : Event :=
  {| event := Some "mouseenter"; offsetX := Some 50%Z; offsetY := Some 10%Z;
     boundingRectWidth := Some 100; boundingRectHeight := Some 50;
     touch_event := None; timeStamp := Some 0; button := None; key := None;
     shiftKey := None; ctrlKey := None; altKey := None; deltaY := None |}.

(** A finger is on the canvas. *)
Definition touching_world : World :=
  world_of (_on_touch_start example_clock no_fault example_syms
              [(10, 20)] fresh_world).



Definition example_session : list input :=
  [ dom_event (pointer "mousedown" 10 20 0 1);
    dom_event (pointer "mousemove" 30 40 0 2);
    dom_event (pointer "mousemove" 50 60 0 5000);
    dom_event (pointer "mouseup" 50 60 0 5001);
    touch_start [(10, 20)];
    touch_move [(11 # 2, 7 # 2)];
    touch_end;
    dom_event (keyboard "keydown" "a" 6000) ].

(** The render window has gone: every access to the interactor raises. *)
Definition interactor_gone (n : nat) (c : call) : option string :=
  match c with
  | GetInteractor => Some "VTK render window has closed"
  | _ => None
  end.

(** The base class fails to close. *)
Definition base_close_fails (n : nat) (c : call) : option string :=
  match c with
  | super_close => Some "comm is closed"
  | _ => None
  end.

(** The pointer has moved over the canvas, no button pressed. *)
Definition hover_world : World :=
  world_of (handle_interaction_event example_clock no_fault example_syms
              (pointer "mousemove" 30 40 0 2) fresh_world).


(** An event whose bounding rect has the size of the canvas of
    [fresh_world]. *)
Definition unscaled_event : Event :=
  {| event := Some "mousedown"; offsetX := Some 37%Z; offsetY := Some 59%Z;
     boundingRectWidth := Some 200; boundingRectHeight := Some 100;
     touch_event := None; timeStamp := Some 3; button := Some 0%Z;
     key := None; shiftKey := None; ctrlKey := None; altKey := None;
     deltaY := None |}.


(** An event at offset [(x, y)] in a bounding rect of [bw] x [bh]. *)
Definition move_in_rect (x y : Z) (bw bh : Q) : Event :=
  {| event := Some "mousemove"; offsetX := Some x; offsetY := Some y;
     boundingRectWidth := Some bw; boundingRectHeight := Some bh;
     touch_event := None; timeStamp := Some 3; button := None; key := None;
     shiftKey := None; ctrlKey := None; altKey := None; deltaY := None |}.

(** ** The rescaling in the standard library's IEEE 754

    [SpecFloat] is the specification of Rocq's primitive floats; with a
    precision of 53 and a maximal exponent of 1024 its operations are those
    of binary64.  The product of lines 305-306 is computed there as well,
    for comparison with [float_mul] and [b64]. *)

(** The double [m * 2^e], for a mantissa [m] that fits. *)
Definition binary64 (m e : Z) : spec_float :=
  binary_normalize 53 1024 m e false.

Definition binary64_value (f : spec_float) : float :=
  match f with
  | S754_zero _ => Finite 0
  | S754_finite s m e =>
      Finite (Qred (inject_Z (if s then Zneg m else Zpos m) * pow2 e))
  | S754_infinity _ => Infinite
  | S754_nan => NaN
  end.

Definition float_eqb (a b : float) : bool :=
  match a, b with
  | Finite p, Finite q => Qeq_bool p q
  | Infinite, Infinite | NaN, NaN => true
  | _, _ => false
  end.

(** [x * (size / rect)] for the ints [x] and [size] and the float
    [rect = m * 2^e], once as lines 305-306 are modelled in this file and
    once with the operations of [SpecFloat]. *)
Definition same_product (size x : Z) (rect : Z * Z) : bool :=
  let (m, e) := rect in
  match scale_of size (inject_Z m * pow2 e) with
  | Ok s =>
      match offset_times x s with
      | Ok p =>
          float_eqb p
            (binary64_value
               (SFmul 53 1024 (binary64 x 0)
                  (SFdiv 53 1024 (binary64 size 0) (binary64 m e))))
      | Raise _ => false
      end
  | Raise _ => false
  end.

(** The pixel of lines 305-306 for ints [x] and [size] and an integral
    [rect], and the pixel exact arithmetic would give. *)
Definition pixel (size x rect : Z) : option Z :=
  match scale_of size (inject_Z rect) with
  | Ok s => match scaled_offset x s with Ok p => Some p | Raise _ => None end
  | Raise _ => None
  end.

Definition exact_pixel (size x rect : Z) : Z :=
  py_round (inject_Z x * (inject_Z size / inject_Z rect)).

(** The integers from [a], [n] of them. *)
Definition upto (a : Z) (n : nat) : list Z :=
  map (fun k => (a + Z.of_nat k)%Z) (seq 0 n).

(** The exact image of [x] lies half-way between two pixels. *)
Definition half_way (size rect x : Z) : bool :=
  ((2 * x * size) mod rect =? 0)%Z && Z.odd (2 * x * size / rect).

(** Offsets within a rect [rect] wide whose exact image on a canvas [size]
    wide lies half-way between two pixels: with [g = gcd (2 * size) rect],
    the odd multiples of [rect / g], provided [2 * size / g] is odd. *)
Definition tie_offsets (size rect : Z) : list Z :=
  let g := Z.gcd (2 * size) rect in
  if Z.odd (2 * size / g)
  then map (fun i => ((2 * i + 1) * (rect / g))%Z)
           (upto 0 (Z.to_nat ((g + 1) / 2)))
  else [].

(** Those offsets for every rect width from 1 to 600, on canvases 200, 300
    and 400 wide. *)
Definition tie_points : list (Z * Z * Z) :=
  flat_map (fun size =>
    flat_map (fun rect => map (fun x => (size, rect, x))
                              (tie_offsets size rect))
             (upto 1 600))
    [200; 300; 400]%Z.

(** Rect sizes in quarters of a pixel up to 10 pixels, with every offset
    up to 10; and sizes at the ends of the exponent range. *)
Definition quarter_points : list (Z * Z * (Z * Z)) :=
  flat_map (fun m => map (fun x => (300, x, (m, -2))%Z) (upto 0 11))
           (upto 1 40).

Definition extreme_points : list (Z * Z * (Z * Z)) :=
  flat_map (fun r => [(300, 0, r); (300, 7, r); (1, -3, r)]%Z)
    [ (1, -1074); (3, -1074); (1, -1022); (1, -1000); (1, 1000);
      (9007199254740991, 971); (-1, -1074) ]%Z
  ++ [ (9007199254740992, 9007199254740992, (1, -900));
       (9007199254740993, 3, (3, 0)); (0, 5, (3, 0)) ]%Z.

(** * Properties *)

Lemma Qltb_true (a b : Q) : Qltb a b = true <-> a < b.
Proof.
  unfold Qltb. rewrite negb_true_iff. split; intro H.
  - destruct (Qlt_le_dec a b) as [L | L]; [exact L | ].
    apply Qle_bool_iff in L. congruence.
  - destruct (Qle_bool b a) eqn:E; [ | reflexivity].
    apply Qle_bool_iff in E. exfalso. exact (Qlt_not_le _ _ H E).
Qed.

Lemma Qltb_false (a b : Q) : Qltb a b = false <-> b <= a.
Proof.
  unfold Qltb. rewrite negb_false_iff. apply Qle_bool_iff.
Qed.

Lemma Qeq_bool_false (a b : Q) : ~ a == b -> Qeq_bool a b = false.
Proof.
  intro H. destruct (Qeq_bool a b) eqn:E; [ | reflexivity].
  apply Qeq_bool_iff in E. contradiction.
Qed.

(** ** Binary64 *)

Lemma pow2_pos e : 0 < pow2 e.
Proof. unfold pow2. apply Qpower_0_lt. reflexivity. Qed.

Lemma pow2_add a b : pow2 (a + b) == pow2 a * pow2 b.
Proof. unfold pow2. apply Qpower_plus. discriminate. Qed.

Lemma pow2_succ a : pow2 (a + 1) == 2 * pow2 a.
Proof. rewrite pow2_add. unfold pow2 at 2. simpl. ring. Qed.

Lemma pow2_pred a : pow2 (a - 1) == pow2 a / 2.
Proof.
  assert (pow2 a == 2 * pow2 (a - 1)) as E.
  { rewrite <- pow2_succ. replace (a - 1 + 1)%Z with a by lia. reflexivity. }
  rewrite E. field.
Qed.

Lemma pow2_le a b : (a <= b)%Z -> pow2 a <= pow2 b.
Proof. intro L. unfold pow2. apply Qpower_le_compat_l; [exact L | discriminate]. Qed.

Lemma pow2_lt a b : (a < b)%Z -> pow2 a < pow2 b.
Proof. intro L. unfold pow2. apply Qpower_lt_compat_l; [exact L | reflexivity]. Qed.

Lemma pow2_Z e : (0 <= e)%Z -> pow2 e == inject_Z (2 ^ e).
Proof. intro P. unfold pow2. rewrite Zpower_Qpower by exact P. reflexivity. Qed.

Lemma Qabs_num_den q : Qabs q == inject_Z (Z.abs (Qnum q)) / inject_Z (Zpos (Qden q)).
Proof. destruct q as [n d]. unfold Qabs. simpl. rewrite (Qmake_Qdiv (Z.abs n) d). reflexivity. Qed.

Lemma ilog2_spec q : ~ q == 0 -> pow2 (ilog2 q) <= Qabs q /\ Qabs q < pow2 (ilog2 q + 1).
Proof.
  intro N.
  set (n := Z.abs (Qnum q)). set (d := Zpos (Qden q)).
  assert (0 < n)%Z as Pn.
  { unfold n. destruct q as [a b]. simpl. unfold Qeq in N. simpl in N. lia. }
  assert (0 < d)%Z as Pd by (unfold d; lia).
  destruct (Z.log2_spec n Pn) as [N1 N2].
  destruct (Z.log2_spec d Pd) as [D1 D2].
  pose proof (Z.log2_nonneg n) as Ln. pose proof (Z.log2_nonneg d) as Ld.
  assert (Qabs q == inject_Z n / inject_Z d) as A by apply Qabs_num_den.
  assert (0 < inject_Z d) as Qd.
  { change 0 with (inject_Z 0). rewrite <- Zlt_Qlt. exact Pd. }
  assert (pow2 (Z.log2 n) <= inject_Z n) as Q1.
  { rewrite pow2_Z by exact Ln. rewrite <- Zle_Qle. exact N1. }
  assert (inject_Z n < pow2 (Z.log2 n + 1)) as Q2.
  { rewrite pow2_Z by lia. rewrite <- Zlt_Qlt. replace (Z.log2 n + 1)%Z with (Z.succ (Z.log2 n)) by lia. exact N2. }
  assert (pow2 (Z.log2 d) <= inject_Z d) as Q3.
  { rewrite pow2_Z by exact Ld. rewrite <- Zle_Qle. exact D1. }
  assert (inject_Z d < pow2 (Z.log2 d + 1)) as Q4.
  { rewrite pow2_Z by lia. rewrite <- Zlt_Qlt. replace (Z.log2 d + 1)%Z with (Z.succ (Z.log2 d)) by lia. exact D2. }
  set (l := (Z.log2 n - Z.log2 d)%Z).
  assert (pow2 (Z.log2 n) == pow2 l * pow2 (Z.log2 d)) as E.
  { rewrite <- pow2_add. unfold l. replace (Z.log2 n - Z.log2 d + Z.log2 d)%Z with (Z.log2 n) by lia. reflexivity. }
  pose proof (pow2_pos l) as Pl. pose proof (pow2_pos (Z.log2 d)) as Pld.
  pose proof (pow2_pos (Z.log2 n)) as Pln.
  rewrite pow2_succ in Q2, Q4.
  assert (Qabs q * inject_Z d == inject_Z n) as A' by (rewrite A; field; lra).
  assert (0 <= Qabs q) as Pa by apply Qabs_nonneg.
  unfold ilog2. fold n d l.
  destruct (Qle_bool (pow2 l) (Qabs q)) eqn:C.
  - apply Qle_bool_iff in C. split; [exact C | ].
    rewrite pow2_succ.
    (* |q| d = n < 2 * 2^ln = 2 * 2^l * 2^ld <= 2 * 2^l * d *)
    apply Qnot_le_lt. intro X. nra.
  - assert (Qabs q < pow2 l) as C'.
    { apply Qnot_le_lt. intro X. apply Qle_bool_iff in X. congruence. }
    replace (l - 1 + 1)%Z with l by lia. split; [ | exact C'].
    rewrite pow2_pred.
    apply Qnot_lt_le. intro X.
    assert (Qabs q * inject_Z d < pow2 l / 2 * inject_Z d) as M1
        by (apply Qmult_lt_compat_r; assumption).
    assert (pow2 l / 2 * inject_Z d < pow2 l / 2 * (2 * pow2 (Z.log2 d))) as M2
        by (apply Qmult_lt_l; [lra | exact Q4]).
    assert (pow2 l / 2 * (2 * pow2 (Z.log2 d)) == pow2 (Z.log2 n)) as M3
        by (rewrite E; field).
    lra.
Qed.

Lemma ilog2_unique q l :
  pow2 l <= Qabs q -> Qabs q < pow2 (l + 1) -> ilog2 q = l.
Proof.
  intros Lo Hi.
  assert (~ q == 0) as N.
  { intro Z0. rewrite Z0 in Lo. pose proof (pow2_pos l). simpl in Lo. lra. }
  destruct (ilog2_spec q N) as [A B].
  destruct (Z.lt_trichotomy (ilog2 q) l) as [C | [C | C]]; [ | exact C | ].
  - assert (pow2 (ilog2 q + 1) <= pow2 l) by (apply pow2_le; lia). lra.
  - assert (pow2 (l + 1) <= pow2 (ilog2 q)) by (apply pow2_le; lia). lra.
Qed.

Lemma ilog2_comp q q' : q == q' -> ~ q == 0 -> ilog2 q = ilog2 q'.
Proof.
  intros E N. symmetry. apply ilog2_unique; rewrite <- E; apply ilog2_spec; exact N.
Qed.

Lemma py_round_comp x y : x == y -> py_round x = py_round y.
Proof.
  intro E. unfold py_round.
  rewrite (Qfloor_comp _ _ E).
  assert (x - inject_Z (Qfloor y) == y - inject_Z (Qfloor y)) as E'
      by (rewrite E; reflexivity).
  rewrite (Qcompare_comp _ _ E' (1 # 2) (1 # 2) (Qeq_refl _)).
  reflexivity.
Qed.

Lemma py_round_inject_Z z : py_round (inject_Z z) = z.
Proof.
  unfold py_round. rewrite Qfloor_Z.
  assert (inject_Z z - inject_Z z == 0) as E by ring.
  rewrite (Qcompare_comp _ _ E (1 # 2) (1 # 2) (Qeq_refl _)).
  reflexivity.
Qed.

Lemma py_round_near x :
  x - (1 # 2) <= inject_Z (py_round x) /\ inject_Z (py_round x) <= x + (1 # 2).
Proof.
  pose proof (Qfloor_le x) as Fl. pose proof (Qlt_floor x) as Fu.
  assert (inject_Z (Qfloor x + 1) == inject_Z (Qfloor x) + 1) as S1
      by (rewrite inject_Z_plus; reflexivity).
  rewrite S1 in Fu.
  unfold py_round.
  destruct (Qcompare (x - inject_Z (Qfloor x)) (1 # 2)) eqn:C.
  - apply Qeq_alt in C. destruct (Z.even (Qfloor x)); [ | rewrite S1]; lra.
  - apply Qlt_alt in C. lra.
  - apply Qgt_alt in C. rewrite S1. lra.
Qed.

Lemma rnd_comp q q' : q == q' -> rnd q = rnd q'.
Proof. intro E. unfold rnd. rewrite (Qred_complete _ _ E). reflexivity. Qed.

Lemma rnd_zero q : q == 0 -> rnd q = 0.
Proof. intro E. rewrite (rnd_comp _ _ E). reflexivity. Qed.

Lemma rnd_value q :
  ~ q == 0 ->
  rnd q == inject_Z (py_round (q / pow2 (last_place q))) * pow2 (last_place q).
Proof.
  intro N. unfold rnd.
  assert (Qred q == q) as R by apply Qred_correct.
  assert (~ Qred q == 0) as N' by (rewrite R; exact N).
  rewrite (Qeq_bool_false _ _ N'). rewrite Qred_correct.
  assert (last_place (Qred q) = last_place q) as L
      by (unfold last_place; rewrite (ilog2_comp _ _ R N'); reflexivity).
  rewrite L.
  assert (Qred q / pow2 (last_place q) == q / pow2 (last_place q)) as D
      by (rewrite R; reflexivity).
  rewrite (py_round_comp _ _ D). reflexivity.
Qed.

Lemma rnd_error q :
  Qabs (rnd q - q) <= Qabs q * pow2 (-53) + pow2 (-1075).
Proof.
  destruct (Qeq_dec q 0) as [Z0 | N].
  - rewrite (rnd_zero q Z0), Z0. vm_compute. discriminate.
  - rewrite (rnd_value q N).
    set (e := last_place q). pose proof (pow2_pos e) as Pe.
    destruct (py_round_near (q / pow2 e)) as [A B].
    set (m := inject_Z (py_round (q / pow2 e))) in *.
    assert (m * pow2 e - q == (m - q / pow2 e) * pow2 e) as E by (field; lra).
    rewrite E, Qabs_Qmult, (Qabs_pos (pow2 e)) by lra.
    assert (Qabs (m - q / pow2 e) <= 1 # 2) as H.
    { apply Qabs_Qle_condition. split; simpl; lra. }
    assert (Qabs (m - q / pow2 e) * pow2 e <= (1 # 2) * pow2 e) as H1
        by (apply Qmult_le_compat_r; lra).
    assert ((1 # 2) * pow2 e == pow2 (e - 1)) as H2 by (rewrite pow2_pred; field).
    pose proof (Qabs_nonneg q) as Pq.
    pose proof (pow2_pos (-53)) as P53. pose proof (pow2_pos (-1075)) as P1075.
    unfold e, last_place in *.
    destruct (Z.max_spec (ilog2 q - 52) (-1074)) as [[L M] | [L M]]; rewrite M in *.
    + change (-1074 - 1)%Z with (-1075)%Z in H2. nra.
    + destruct (ilog2_spec q N) as [S1 _].
      assert (pow2 (ilog2 q - 52 - 1) == pow2 (ilog2 q) * pow2 (-53)) as H3.
      { rewrite <- pow2_add. replace (ilog2 q - 52 - 1)%Z with (ilog2 q + -53)%Z by lia. reflexivity. }
      assert (pow2 (ilog2 q) * pow2 (-53) <= Qabs q * pow2 (-53)) as H4
          by (apply Qmult_le_compat_r; lra).
      lra.
Qed.

Lemma pow2_opp e : pow2 e * pow2 (- e) == 1.
Proof. rewrite <- pow2_add. replace (e + - e)%Z with 0%Z by lia. reflexivity. Qed.

Lemma pow2_inv e : / pow2 e == pow2 (- e).
Proof. unfold pow2. rewrite Qpower_opp. reflexivity. Qed.

Lemma Qabs_inject_Z n : Qabs (inject_Z n) == inject_Z (Z.abs n).
Proof. unfold Qabs, inject_Z. simpl. reflexivity. Qed.

Lemma ilog2_inject_Z n : n <> 0%Z -> ilog2 (inject_Z n) = Z.log2 (Z.abs n).
Proof.
  intro N. assert (0 < Z.abs n)%Z as P by lia.
  destruct (Z.log2_spec _ P) as [A B]. pose proof (Z.log2_nonneg (Z.abs n)) as L.
  apply ilog2_unique; rewrite Qabs_inject_Z, pow2_Z by lia.
  - rewrite <- Zle_Qle. exact A.
  - rewrite <- Zlt_Qlt. replace (Z.log2 (Z.abs n) + 1)%Z with (Z.succ (Z.log2 (Z.abs n))) by lia.
    exact B.
Qed.

(** The integers up to 2^53 in magnitude are doubles. *)
Lemma rnd_int n : (Z.abs n <= 2 ^ 53)%Z -> rnd (inject_Z n) == inject_Z n.
Proof.
  intro B.
  destruct (Z.eq_dec n 0) as [Z0 | N]; [subst; reflexivity | ].
  destruct (Z.eq_dec (Z.abs n) (2 ^ 53)) as [Top | Below].
  - assert (n = 2 ^ 53 \/ n = - 2 ^ 53)%Z as [E | E] by lia; rewrite E;
      vm_compute; reflexivity.
  - assert (~ inject_Z n == 0) as Nq.
    { change 0 with (inject_Z 0). rewrite inject_Z_injective. exact N. }
    rewrite (rnd_value _ Nq). unfold last_place.
    rewrite (ilog2_inject_Z n N).
    assert (0 < Z.abs n)%Z as P by lia.
    set (l := Z.log2 (Z.abs n)).
    assert (0 <= l <= 52)%Z as Bl.
    { split; [apply Z.log2_nonneg | ].
      assert (l < 53)%Z; [ | lia].
      apply Z.log2_lt_pow2; [exact P | lia]. }
    rewrite Z.max_l by lia.
    set (k := (52 - l)%Z).
    replace (l - 52)%Z with (- k)%Z by (unfold k; lia).
    pose proof (pow2_opp k) as O.
    assert (pow2 k == inject_Z (2 ^ k)) as K by (apply pow2_Z; unfold k; lia).
    assert (inject_Z n / pow2 (- k) == inject_Z (n * 2 ^ k)) as D.
    { unfold Qdiv. rewrite pow2_inv, Z.opp_involutive, inject_Z_mult, K.
      reflexivity. }
    rewrite (py_round_comp _ _ D), py_round_inject_Z, inject_Z_mult, <- K.
    rewrite <- Qmult_assoc, O. ring.
Qed.

Lemma py_round_nonneg x : 0 <= x -> (0 <= py_round x)%Z.
Proof.
  intro P. assert (0 <= Qfloor x)%Z as F.
  { rewrite <- (Qfloor_Z 0). apply Qfloor_resp_le. exact P. }
  unfold py_round.
  destruct (Qcompare (x - inject_Z (Qfloor x)) (1 # 2));
    [destruct (Z.even (Qfloor x)) | | ]; lia.
Qed.

Lemma rnd_nonneg q : 0 <= q -> 0 <= rnd q.
Proof.
  intro P. destruct (Qeq_dec q 0) as [Z0 | N].
  - rewrite (rnd_zero q Z0). discriminate.
  - rewrite (rnd_value q N). pose proof (pow2_pos (last_place q)) as Pe.
    apply Qmult_le_0_compat; [ | lra].
    change 0 with (inject_Z 0). rewrite <- Zle_Qle. apply py_round_nonneg.
    apply Qle_shift_div_l; [exact Pe | lra].
Qed.

(** [round] of a value below b + 1/2 does not exceed b *)
Lemma py_round_below b x : x < inject_Z b + (1 # 2) -> (py_round x <= b)%Z.
Proof.
  intro Hi. destruct (py_round_near x) as [_ U].
  assert (inject_Z (py_round x) < inject_Z b + 1) as L by lra.
  assert (inject_Z b + 1 == inject_Z (b + 1)) as E by (rewrite inject_Z_plus; reflexivity).
  rewrite E, <- Zlt_Qlt in L. lia.
Qed.

Lemma Qabs_diff_le a b : Qabs a <= Qabs b + Qabs (a - b).
Proof.
  assert (a == b + (a - b)) as E by ring.
  rewrite E at 1. apply Qabs_triangle.
Qed.

Lemma Qmult_le_mono a b c : 0 <= c -> a <= b -> c * a <= c * b.
Proof. intros. nra. Qed.

Lemma rnd_bound q : Qabs (rnd q) <= 2 * Qabs q + 1.
Proof.
  pose proof (rnd_error q) as E. pose proof (Qabs_diff_le (rnd q) q) as T.
  pose proof (Qabs_nonneg q) as P.
  assert (pow2 (-53) <= 1) as U by (vm_compute; discriminate).
  assert (pow2 (-1075) <= 1) as V by (vm_compute; discriminate).
  pose proof (Qmult_le_mono _ _ (Qabs q) P U) as M.
  lra.
Qed.

Lemma b64_comp q q' : q == q' -> b64 q = b64 q'.
Proof. intro E. unfold b64. rewrite (rnd_comp _ _ E). reflexivity. Qed.

(** Below [2^1022] a result is rounded to a finite double. *)
Lemma b64_finite q : Qabs q <= pow2 1022 -> b64 q = Finite (rnd q).
Proof.
  intro B. pose proof (rnd_bound q) as R.
  assert (2 * pow2 1022 + 1 < pow2 1024) as C by (vm_compute; reflexivity).
  unfold b64.
  destruct (Qle_bool (pow2 1024) (Qabs (rnd q))) eqn:O; [ | reflexivity].
  apply Qle_bool_iff in O. lra.
Qed.

Lemma inject_Z_abs_le z b :
  (Z.abs z <= b)%Z -> Qabs (inject_Z z) <= inject_Z b.
Proof. intro B. rewrite Qabs_inject_Z, <- Zle_Qle. exact B. Qed.

(** An int up to [2^53] in magnitude becomes the float of the same value. *)
Lemma int_to_float_exact z :
  (Z.abs z <= 2 ^ 53)%Z ->
  int_to_float z = Ok (rnd (inject_Z z)) /\ rnd (inject_Z z) == inject_Z z.
Proof.
  intro B. split; [ | apply rnd_int; exact B].
  unfold int_to_float. rewrite b64_finite; [reflexivity | ].
  pose proof (inject_Z_abs_le z _ B) as A.
  assert (inject_Z (2 ^ 53) <= pow2 1022) as C by (vm_compute; discriminate).
  lra.
Qed.

Lemma Qabs_div a b : ~ b == 0 -> Qabs (a / b) == Qabs a / Qabs b.
Proof. intro N. unfold Qdiv. rewrite Qabs_Qmult, Qabs_Qinv. reflexivity. Qed.

Lemma Qabs_pos_nonzero b : ~ b == 0 -> 0 < Qabs b.
Proof.
  intro N. pose proof (Qabs_nonneg b) as P.
  destruct (Qeq_dec (Qabs b) 0) as [E | E]; [ | lra].
  exfalso. apply N. revert E. apply Qabs_case; intros; lra.
Qed.

(** Lines 305 and 307 on ordinary magnitudes: the scale is the quotient
    rounded once, and finite. *)
Lemma scale_of_finite size rect :
  (Z.abs size <= 2 ^ 53)%Z -> pow2 (-900) <= Qabs rect ->
  scale_of size rect = Ok (Finite (rnd (inject_Z size / rect)))
  /\ Qabs (rnd (inject_Z size / rect)) <= pow2 955.
Proof.
  intros B R. pose proof (pow2_pos (-900)) as P9.
  assert (~ rect == 0) as N.
  { intro Z0. rewrite Z0 in R. change (Qabs 0) with 0 in R. lra. }
  destruct (int_to_float_exact size B) as [C E].
  assert (Qabs (inject_Z size / rect) <= pow2 953) as Q.
  { rewrite (Qabs_div _ _ N). apply Qle_shift_div_r; [lra | ].
    pose proof (inject_Z_abs_le size _ B) as A.
    assert (inject_Z (2 ^ 53) == pow2 953 * pow2 (-900)) as F
        by (vm_compute; reflexivity).
    pose proof (pow2_pos 953) as P953.
    pose proof (Qmult_le_mono _ _ (pow2 953) (Qlt_le_weak _ _ P953) R). lra. }
  split.
  - unfold scale_of. rewrite C. unfold float_div.
    rewrite (Qeq_bool_false _ _ N).
    assert (rnd (inject_Z size) / rect == inject_Z size / rect) as D
        by (rewrite E; reflexivity).
    rewrite (b64_comp _ _ D). rewrite b64_finite; [reflexivity | ].
    assert (pow2 953 <= pow2 1022) by (apply pow2_le; lia). lra.
  - pose proof (rnd_bound (inject_Z size / rect)) as Rb.
    assert (2 * pow2 953 + 1 <= pow2 955) by (vm_compute; discriminate). lra.
Qed.

(** Lines 306 and 308 on ordinary magnitudes: the pixel is the product
    rounded once to a double and then to an int. *)
Lemma scaled_offset_finite off s :
  (Z.abs off <= 2 ^ 53)%Z -> Qabs s <= pow2 955 ->
  scaled_offset off (Finite s) = Ok (py_round (rnd (inject_Z off * s))).
Proof.
  intros B S. destruct (int_to_float_exact off B) as [C E].
  unfold scaled_offset, offset_times. rewrite C. unfold float_mul.
  assert (rnd (inject_Z off) * s == inject_Z off * s) as D
      by (rewrite E; reflexivity).
  rewrite (b64_comp _ _ D). rewrite b64_finite; [reflexivity | ].
  rewrite Qabs_Qmult.
  pose proof (inject_Z_abs_le off _ B) as A.
  pose proof (Qabs_nonneg (inject_Z off)) as P1. pose proof (Qabs_nonneg s) as P2.
  assert (inject_Z (2 ^ 53) * pow2 955 <= pow2 1022) as F
      by (vm_compute; discriminate).
  assert (Qabs (inject_Z off) * Qabs s <= inject_Z (2 ^ 53) * pow2 955) as M
      by (apply Qmult_le_compat_nonneg; split; assumption).
  lra.
Qed.

(** Two roundings in a row: [d3] is the error of the scale, [d1] that of
    the product, [d0] the distance of the result from the exact product
    of magnitude [A]. *)
Lemma two_roundings A aX at_ d0 d1 d2 d3 d4 u h K :
  0 < u -> u <= 1 -> 0 < h -> 0 <= aX -> aX <= K -> 0 <= at_ ->
  aX * at_ == A ->
  d3 <= at_ * u + h -> d2 == aX * d3 -> d4 <= A + d2 -> 0 <= d4 ->
  d1 <= d4 * u + h -> d0 <= d1 + d2 ->
  d0 <= A * (4 * u) + (2 * K + 1) * h.
Proof.
  intros Pu U1 Ph PX Bx Pt EA E1 F0 F2 P4 E2 F3.
  assert (0 <= A) as PA by (rewrite <- EA; apply Qmult_le_0_compat; assumption).
  pose proof (Qmult_le_mono _ _ aX PX E1) as F1.
  assert (aX * (at_ * u + h) == A * u + aX * h) as F1' by (rewrite <- EA; ring).
  assert (d4 * u <= (A + (A * u + aX * h)) * u) as F4
      by (apply Qmult_le_compat_r; lra).
  assert (A * u * u <= A * u * 1) as F5
      by (apply Qmult_le_mono; [apply Qmult_le_0_compat | ]; lra).
  assert (aX * h * u <= aX * h * 1) as F6
      by (apply Qmult_le_mono; [apply Qmult_le_0_compat | ]; lra).
  assert (aX * h <= K * h) as F7 by (apply Qmult_le_compat_r; lra).
  assert (0 <= A * u) as F8 by (apply Qmult_le_0_compat; lra).
  lra.
Qed.

(** The double product of lines 305-306 against the exact one: two
    roundings, each within half a last place. *)
Lemma scaling_error x size rect :
  (Z.abs x <= 2 ^ 53)%Z ->
  Qabs (rnd (inject_Z x * rnd (inject_Z size / rect))
        - inject_Z x * (inject_Z size / rect))
  <= Qabs (inject_Z x * (inject_Z size / rect)) * pow2 (-51) + pow2 (-1000).
Proof.
  intro B.
  set (X := inject_Z x). set (t := inject_Z size / rect).
  set (s := rnd t). set (p := rnd (X * s)).
  pose proof (rnd_error t) as E1. fold s in E1.
  pose proof (rnd_error (X * s)) as E2. fold p in E2.
  pose proof (inject_Z_abs_le x _ B) as Bx. fold X in Bx.
  assert (4 * pow2 (-53) == pow2 (-51)) as U4 by (vm_compute; reflexivity).
  assert ((2 * inject_Z (2 ^ 53) + 1) * pow2 (-1075) <= pow2 (-1000)) as H1
      by (vm_compute; discriminate).
  assert (Qabs (p - X * t)
          <= Qabs (X * t) * (4 * pow2 (-53))
             + (2 * inject_Z (2 ^ 53) + 1) * pow2 (-1075)) as G.
  { apply (two_roundings (Qabs (X * t)) (Qabs X) (Qabs t) (Qabs (p - X * t))
             (Qabs (p - X * s)) (Qabs (X * s - X * t)) (Qabs (s - t))
             (Qabs (X * s)) (pow2 (-53)) (pow2 (-1075)) (inject_Z (2 ^ 53))).
    - apply pow2_pos.
    - vm_compute; discriminate.
    - apply pow2_pos.
    - apply Qabs_nonneg.
    - exact Bx.
    - apply Qabs_nonneg.
    - rewrite Qabs_Qmult. reflexivity.
    - exact E1.
    - assert (X * s - X * t == X * (s - t)) as E by ring.
      rewrite E, Qabs_Qmult. reflexivity.
    - apply Qabs_diff_le.
    - apply Qabs_nonneg.
    - exact E2.
    - assert (p - X * t == (p - X * s) + (X * s - X * t)) as E by ring.
      rewrite E at 1. apply Qabs_triangle. }
  rewrite U4 in G. lra.
Qed.

(** ** Footprints *)

Section Reach.

Variable F : footprint.

Lemma reach_atom a w : F a = true -> reach F w (apply_atom a w).
Proof. intro Fa. eapply reach_step; [exact Fa | apply reach_refl]. Qed.

Lemma reach_trans w1 w2 w3 :
  reach F w1 w2 -> reach F w2 w3 -> reach F w1 w3.
Proof.
  induction 1 as [ | a w w' Fa _ IH]; intro R; [exact R | ].
  eapply reach_step; [exact Fa | exact (IH R)].
Qed.

Lemma reach_invariant (P : World -> Prop) :
  (forall a w, F a = true -> P w -> P (apply_atom a w)) ->
  forall w w', reach F w w' -> P w -> P w'.
Proof.
  intros Step w w' R. induction R as [ | a w w' Fa _ IH]; intro Pw.
  - exact Pw.
  - apply IH. apply Step; assumption.
Qed.

Lemma apply_atom_trace a w :
  trace (apply_atom a w) = trace w
  \/ exists c, a = a_emit c /\ trace (apply_atom a w) = trace w ++ [c].
Proof.
  destruct a; simpl; try (left; reflexivity).
  - right. eexists. split; reflexivity.
  - left. destruct (message_timestamp_offset (self w)); reflexivity.
Qed.

(** Along a footprint the trace only grows, by calls of the footprint. *)
Lemma reach_trace w w' :
  reach F w w' ->
  exists l, trace w' = trace w ++ l
            /\ Forall (fun c => F (a_emit c) = true) l.
Proof.
  induction 1 as [w | a w w' Fa _ [l [E Hl]]].
  - exists []. split; [symmetry; apply app_nil_r | constructor].
  - destruct (apply_atom_trace a w) as [T | [c [-> T]]].
    + exists l. rewrite <- T. split; assumption.
    + exists (c :: l). rewrite E, T, <- app_assoc. split; [reflexivity | ].
      constructor; assumption.
Qed.

End Reach.

Lemma reach_mono (F G : footprint) :
  (forall a, F a = true -> G a = true) ->
  forall w w', reach F w w' -> reach G w w'.
Proof.
  intros Sub w w' R. induction R as [ | a w w' Fa _ IH].
  - apply reach_refl.
  - eapply reach_step; [apply Sub; exact Fa | exact IH].
Qed.

(** ** Footprints of the monad's operations *)

Section Effects.

Variable F : footprint.

Lemma effects_ret {A} (a : A) : effects F (ret a).
Proof. intro w. apply reach_refl. Qed.

Lemma effects_raise {A} (e : exn) : effects F (@raise A e).
Proof. intro w. apply reach_refl. Qed.

Lemma effects_bind {A B} (m : M A) (k : A -> M B) :
  effects F m -> (forall a, effects F (k a)) -> effects F (bind m k).
Proof.
  intros Hm Hk w. unfold bind. specialize (Hm w). unfold world_of in *.
  destruct (m w) as [[a | e] w1]; simpl in *.
  - eapply reach_trans; [exact Hm | apply Hk].
  - exact Hm.
Qed.

Lemma effects_try {A} (m : M A) (h : exn -> M A) :
  effects F m -> (forall e, effects F (h e)) -> effects F (try_except m h).
Proof.
  intros Hm Hh w. unfold try_except. specialize (Hm w).
  unfold world_of in *. destruct (m w) as [[a | e] w1]; simpl in *.
  - exact Hm.
  - eapply reach_trans; [exact Hm | apply Hh].
Qed.

Lemma effects_when (b : bool) (m : M unit) :
  effects F m -> effects F (when b m).
Proof. intro Hm. destruct b; [exact Hm | apply effects_ret]. Qed.

Lemma effects_item {A} (k : string) (o : option A) : effects F (item k o).
Proof. destruct o; [apply effects_ret | apply effects_raise]. Qed.


Lemma effects_after_assign {B} f (k : unit -> M B) w :
  effects F (k tt) -> reach F (on_self f w) (world_of (bind (assign f) k w)).
Proof. intro H. exact (H (on_self f w)). Qed.

Lemma effects_get_self : effects F get_self.
Proof. intro w. apply reach_refl. Qed.

Lemma effects_gets {A} (f : World -> A) : effects F (gets f).
Proof. intro w. apply reach_refl. Qed.

(** A computation that is one atom. *)
Lemma effects_atom {A} (a : atom) (m : M A) :
  F a = true -> (forall w, world_of (m w) = apply_atom a w) ->
  effects F m.
Proof. intros Fa E w. rewrite E. apply reach_atom. exact Fa. Qed.

End Effects.



Lemma setter_in_inject a : setter_fp a = true -> inject_fp a = true.
Proof.
  destruct a; simpl; auto. unfold is_interactor_call. intro H. rewrite H.
  reflexivity.
Qed.

Lemma paint_in_render a : paint_fp a = true -> render_fp a = true.
Proof.
  destruct a; simpl; auto. intro H. rewrite H. apply orb_true_r.
Qed.

Lemma inject_in_render a : inject_fp a = true -> render_fp a = true.
Proof.
  destruct a; simpl; auto. intro H. rewrite H. reflexivity.
Qed.

Section MethodFootprints.

Variable time_at : nat -> Q.
Variable fault : nat -> call -> option string.
Variable KEY_TO_SYM : string -> option string.

Lemma effects_time F : F a_tick = true -> effects F (time time_at).
Proof. intro H. apply (effects_atom F a_tick); [exact H | reflexivity]. Qed.

Lemma effects_interactor F :
  F a_bump = true -> effects F (interactor fault).
Proof.
  intros H w. unfold interactor, world_of.
  destruct (fault (attempts w) GetInteractor); simpl;
    apply (reach_atom F a_bump); exact H.
Qed.

Lemma effects_ext F c :
  F a_bump = true -> F (a_emit c) = true -> effects F (ext fault c).
Proof.
  intros Hb Hc w. unfold ext, world_of.
  destruct (fault (attempts w) c); simpl.
  - apply (reach_atom F a_bump); exact Hb.
  - eapply reach_step; [exact Hb | ]. apply (reach_atom F (a_emit c)).
    exact Hc.
Qed.

Ltac side :=
  solve [ reflexivity
        | match goal with
          | H : forall a, _ a = true -> ?F a = true |- ?F _ = true =>
              apply H; reflexivity
          end ].

Ltac fx_atom :=
  match goal with
  | |- effects _ (mark ?c) => apply (effects_atom _ (a_emit c))
  | |- effects _ (modify (upd_full_render_last_call ?v)) =>
      apply (effects_atom _ (a_full_render_last_call v))
  | |- effects _ (modify (upd_quick_render_last_call ?v)) =>
      apply (effects_atom _ (a_quick_render_last_call v))
  | |- effects _ (assign (upd_touching ?v)) =>
      apply (effects_atom _ (a_touching v))
  | |- effects _ (assign (upd_last_touch ?v)) =>
      apply (effects_atom _ (a_last_touch v))
  | |- effects _ (assign (upd_last_render_time ?v)) =>
      apply (effects_atom _ (a_last_render_time v))
  | |- effects _ (set_quick_render_delay ?v) =>
      apply (effects_atom _ (a_set_quick_render_delay v))
  | |- effects _ (assign (upd_last_mouse_move_event ?v)) =>
      apply (effects_atom _ (a_last_mouse_move_event v))
  | |- effects _ (assign (upd_dragging ?v)) =>
      apply (effects_atom _ (a_dragging v))
  | |- effects _ (assign (upd_error ?v)) =>
      apply (effects_atom _ (a_error v))
  | |- effects _ (assign (upd_logged_events ?v)) =>
      apply (effects_atom _ (a_logged_events v))
  | |- effects _ (assign (upd_elapsed_times ?v)) =>
      apply (effects_atom _ (a_elapsed_times v))
  | |- effects _ (assign (upd_age_of_processed_messages ?v)) =>
      apply (effects_atom _ (a_age_of_processed_messages v))
  end; [side | reflexivity].

Ltac fx_with known :=
  repeat first
    [ known
    | fx_atom
    | match goal with
      | |- effects _ (ret _) => apply effects_ret
      | |- effects _ (raise _) => apply effects_raise
      | |- effects _ (item _ _) => apply effects_item
      | |- effects _ get_self => apply effects_get_self
      | |- effects _ (gets _) => apply effects_gets
      | |- effects _ (bind _ _) => apply effects_bind; [ | intro ]
      | |- effects _ (try_except _ _) => apply effects_try; [ | intro ]
      | |- effects _ (when _ _) => apply effects_when
      | |- effects _ (time _) => apply effects_time; side
      | |- effects _ (interactor _) => apply effects_interactor; side
      | |- effects _ (ext _ _) => apply effects_ext; side
      | |- effects _ (match ?x with _ => _ end) => destruct x
      end ].

Ltac fx := fx_with fail.

(** *** Setting event data and flushing the pending move *)

Section SetterLevel.

Variable F : footprint.
Hypothesis HF : forall a, setter_fp a = true -> F a = true.

Lemma update_interactor_event_data_sets ev :
  effects F (update_interactor_event_data fault KEY_TO_SYM ev).
Proof.
  unfold update_interactor_event_data, update_interactor_event_data_body.
  fx.
Qed.

End SetterLevel.

Section InjectLevel.

Variable F : footprint.
Hypothesis HF : forall a, inject_fp a = true -> F a = true.

Lemma update_interactor_event_data_effects ev :
  effects F (update_interactor_event_data fault KEY_TO_SYM ev).
Proof.
  apply update_interactor_event_data_sets.
  intros a Ha. apply HF, setter_in_inject, Ha.
Qed.

Lemma send_pending_mouse_move_event_effects :
  effects F (send_pending_mouse_move_event fault KEY_TO_SYM).
Proof.
  unfold send_pending_mouse_move_event.
  fx_with ltac:(apply update_interactor_event_data_effects).
Qed.

End InjectLevel.

(** *** The render paths *)

Section PaintLevel.

Variable F : footprint.
Hypothesis HF : forall a, paint_fp a = true -> F a = true.

Lemma update_canvas_effects b : effects F (update_canvas fault b).
Proof. unfold update_canvas. fx. Qed.

Lemma full_render_fn_effects : effects F (full_render_fn time_at fault).
Proof.
  unfold full_render_fn, full_render_body.
  fx_with ltac:(apply update_canvas_effects).
Qed.

Lemma throttled_full_render_effects :
  effects F (throttle time_at (1 # 10) full_render_last_call
               upd_full_render_last_call (full_render_fn time_at fault)).
Proof.
  unfold throttle. fx_with ltac:(apply full_render_fn_effects).
Qed.

End PaintLevel.

Section RenderLevel.

Variable F : footprint.
Hypothesis HF : forall a, render_fp a = true -> F a = true.

Lemma full_render_effects : effects F (full_render time_at fault).
Proof.
  unfold full_render.
  fx_with ltac:(apply throttled_full_render_effects;
                intros ? Hp; apply HF, paint_in_render, Hp).
Qed.

Lemma quick_render_effects :
  effects F (quick_render time_at fault KEY_TO_SYM).
Proof.
  unfold quick_render, throttle, quick_render_fn, quick_render_body.
  fx_with ltac:(first
                  [ apply update_canvas_effects;
                    intros ? Hp; apply HF, paint_in_render, Hp
                  | apply send_pending_mouse_move_event_effects;
                    intros ? Hinj; apply HF, inject_in_render, Hinj ]).
Qed.

(** After [self.dragging = True] a mousedown stays within the render
    paths. *)
Lemma on_mousedown_after_drag ev w :
  reach F (on_self (upd_dragging true) w)
    (world_of (on_mousedown time_at fault KEY_TO_SYM ev w)).
Proof.
  unfold on_mousedown. apply effects_after_assign.
  fx_with
    ltac:(first
            [ apply full_render_effects
            | apply send_pending_mouse_move_event_effects;
              intros ? Hinj; apply HF, inject_in_render, Hinj
            | apply update_interactor_event_data_effects;
              intros ? Hinj; apply HF, inject_in_render, Hinj ]).
Qed.

End RenderLevel.

(** *** The handler and the touch callbacks *)

Lemma capture_timestamp_offset_effects ev :
  effects any_fp (capture_timestamp_offset time_at ev).
Proof.
  intro w. unfold capture_timestamp_offset, bind, get_self, world_of.
  destruct (message_timestamp_offset (self w)) eqn:E; simpl.
  - apply reach_refl.
  - destruct (timeStamp ev) as [ts | ]; simpl.
    + apply (reach_step any_fp a_tick); [reflexivity | ].
      apply (reach_step any_fp
               (a_capture_offset (time_at (ticks w) - ts * (1 # 1000))));
        [reflexivity | ].
      simpl. rewrite E. apply reach_refl.
    + apply (reach_atom any_fp a_tick). reflexivity.
Qed.

Ltac fx_any :=
  fx_with
    ltac:(first
            [ apply capture_timestamp_offset_effects
            | apply full_render_effects; reflexivity
            | apply quick_render_effects; reflexivity
            | apply send_pending_mouse_move_event_effects; reflexivity
            | apply update_interactor_event_data_effects; reflexivity ]).

Lemma handle_interaction_event_effects ev :
  effects any_fp (handle_interaction_event time_at fault KEY_TO_SYM ev).
Proof.
  unfold handle_interaction_event, log_event, dispatch.
  unfold on_mousemove, on_mouseenter, on_mouseleave, on_mousedown,
    on_mouseup, on_keydown, on_keyup, on_wheel, adapt_render_delay.
  fx_any.
Qed.

Lemma deliver_effects i :
  effects any_fp (deliver time_at fault KEY_TO_SYM i).
Proof.
  destruct i; simpl;
    unfold _on_touch_start, _on_touch_end, _on_touch_move, touch_dict;
    fx_with ltac:(apply handle_interaction_event_effects).
Qed.

Lemma run_reach inputs :
  forall w, reach any_fp w (run time_at fault KEY_TO_SYM inputs w).
Proof.
  induction inputs as [ | i rest IH]; intro w; simpl.
  - apply reach_refl.
  - eapply reach_trans; [apply deliver_effects | apply IH].
Qed.

(** *** The branches of the handler *)

Section HandlerLevel.

Variable F : footprint.
Hypothesis HF : forall a, handler_fp a = true -> F a = true.

Lemma render_in_handler a : render_fp a = true -> handler_fp a = true.
Proof. destruct a; simpl; auto. Qed.

Lemma capture_timestamp_offset_within ev :
  effects F (capture_timestamp_offset time_at ev).
Proof.
  intro w. unfold capture_timestamp_offset, bind, get_self, world_of.
  destruct (message_timestamp_offset (self w)) eqn:E; simpl.
  - apply reach_refl.
  - destruct (timeStamp ev) as [ts | ]; simpl.
    + apply (reach_step F a_tick); [apply HF; reflexivity | ].
      apply (reach_step F
               (a_capture_offset (time_at (ticks w) - ts * (1 # 1000))));
        [apply HF; reflexivity | ].
      simpl. rewrite E. apply reach_refl.
    + apply (reach_atom F a_tick). apply HF. reflexivity.
Qed.

Lemma dispatch_effects name ev :
  effects F (dispatch time_at fault KEY_TO_SYM name ev).
Proof.
  unfold dispatch.
  unfold on_mousemove, on_mouseenter, on_mouseleave, on_mousedown,
    on_mouseup, on_keydown, on_keyup, on_wheel, adapt_render_delay.
  fx_with
    ltac:(first
            [ apply capture_timestamp_offset_within
            | apply full_render_effects;
              intros ? Hr; apply HF, render_in_handler, Hr
            | apply quick_render_effects;
              intros ? Hr; apply HF, render_in_handler, Hr
            | apply send_pending_mouse_move_event_effects;
              intros ? Hi;
              apply HF, render_in_handler, inject_in_render, Hi
            | apply update_interactor_event_data_effects;
              intros ? Hi;
              apply HF, render_in_handler, inject_in_render, Hi ]).
Qed.

End HandlerLevel.

Section ButtonLevel.

Variable F : footprint.
Hypothesis HF : forall a, button_fp a = true -> F a = true.

Lemma render_in_button a : render_fp a = true -> button_fp a = true.
Proof. destruct a; simpl; auto. Qed.

(** Every branch but the one of mousemove. *)
Lemma dispatch_other_effects name ev :
  String.eqb name "mousemove" = false ->
  effects F (dispatch time_at fault KEY_TO_SYM name ev).
Proof.
  intro Hn. unfold dispatch. rewrite Hn.
  unfold on_mouseenter, on_mouseleave, on_mousedown, on_mouseup, on_keydown,
    on_keyup, on_wheel.
  fx_with
    ltac:(first
            [ apply full_render_effects;
              intros ? Hr; apply HF, render_in_button, Hr
            | apply send_pending_mouse_move_event_effects;
              intros ? Hi;
              apply HF, render_in_button, inject_in_render, Hi
            | apply update_interactor_event_data_effects;
              intros ? Hi;
              apply HF, render_in_button, inject_in_render, Hi ]).
Qed.

End ButtonLevel.

End MethodFootprints.

(** ** What the atoms leave alone *)

Lemma atom_keeps_delay_in_range a w :
  range_as_constructed w /\ delay_in_range w ->
  range_as_constructed (apply_atom a w) /\ delay_in_range (apply_atom a w).
Proof.
  unfold range_as_constructed, delay_in_range.
  destruct a; simpl; auto.
  - (* set_quick_render_delay *)
    intros [R [Lo Hi]]. rewrite R. simpl. split; [reflexivity | ].
    destruct (Qltb v (1 # 1000)) eqn:E1.
    + split; [apply Qle_refl | discriminate].
    + destruct (Qltb 2 v) eqn:E2.
      * split; [discriminate | apply Qle_refl].
      * apply Qltb_false in E1. apply Qltb_false in E2. split; assumption.
  - destruct (message_timestamp_offset (self w)); simpl; auto.
Qed.


Lemma render_fp_keeps_controller w w' :
  reach render_fp w w' -> controller_state w' = controller_state w.
Proof.
  intro R.
  apply (reach_invariant render_fp
           (fun x => controller_state x = controller_state w)) with (w := w);
    [ | exact R | reflexivity].
  intros a x Fa Px. rewrite <- Px.
  destruct a; simpl in Fa; try discriminate; reflexivity.
Qed.

Lemma count_app p l1 l2 : count p (l1 ++ l2) = (count p l1 + count p l2)%nat.
Proof. unfold count. rewrite filter_app, length_app. reflexivity. Qed.

(** ** The rescaling *)

(** What the two lines of an axis can raise. *)
Lemma scale_of_raises size rect e :
  scale_of size rect = Raise e ->
  e = OverflowError "int too large to convert to float"
  \/ e = ZeroDivisionError.
Proof.
  unfold scale_of, int_to_float, float_div.
  destruct (b64 (inject_Z size)) as [a | | ];
    [ | intro E; inversion E; auto ..].
  destruct (Qeq_bool rect 0); intro E; inversion E; auto.
Qed.

Lemma scaled_offset_raises off s e :
  scaled_offset off s = Raise e ->
  e = OverflowError "int too large to convert to float"
  \/ e = OverflowError "cannot convert float infinity to integer"
  \/ e = ValueError "cannot convert float NaN to integer".
Proof.
  unfold scaled_offset, offset_times, int_to_float, float_round.
  destruct (b64 (inject_Z off)) as [a | | ];
    [ | intro E; inversion E; auto ..].
  destruct (float_mul a s); intro E; inversion E; auto.
Qed.

(** The rescaling keeps every key but the two offsets. *)
Lemma rescale_offsets_keeps W H ev :
  let ev' := fst (rescale_offsets W H ev) in
  event ev' = event ev /\ touch_event ev' = touch_event ev
  /\ timeStamp ev' = timeStamp ev /\ button ev' = button ev
  /\ key ev' = key ev /\ deltaY ev' = deltaY ev
  /\ (shiftKey ev' = shiftKey ev /\ ctrlKey ev' = ctrlKey ev
      /\ altKey ev' = altKey ev).
Proof.
  unfold rescale_offsets.
  destruct (offsetX ev) as [x | ], (boundingRectWidth ev) as [bw | ];
    simpl; auto 10.
  destruct (scale_of W bw) as [sx | ]; simpl; auto 10.
  destruct (scaled_offset x sx); simpl; auto 10.
  destruct (boundingRectHeight ev) as [bh | ]; simpl; auto 10.
  destruct (scale_of H bh) as [sy | ]; simpl; auto 10.
  destruct (offsetY ev) as [y | ]; simpl; auto 10.
  destruct (scaled_offset y sy); simpl; auto 10.
Qed.

Lemma rescale_offsets_scaled W H ev x y bw bh :
  offsetX ev = Some x -> offsetY ev = Some y ->
  boundingRectWidth ev = Some bw -> boundingRectHeight ev = Some bh ->
  finite_scaling W x bw -> finite_scaling H y bh ->
  rescale_offsets W H ev =
    (assign_offsetY (py_round (rnd (inject_Z y * rnd (inject_Z H / bh))))
       (assign_offsetX (py_round (rnd (inject_Z x * rnd (inject_Z W / bw))))
          ev),
     None).
Proof.
  intros Hx Hy Hbw Hbh [BW [Bx Rw]] [BH [By Rh]].
  destruct (scale_of_finite W bw BW Rw) as [Sx Fx].
  destruct (scale_of_finite H bh BH Rh) as [Sy Fy].
  unfold rescale_offsets.
  rewrite Hx, Hbw, Sx, (scaled_offset_finite x _ Bx Fx). simpl.
  rewrite Hbh, Sy, Hy, (scaled_offset_finite y _ By Fy). reflexivity.
Qed.

Lemma rescale_offsets_skipped W H ev :
  boundingRectWidth ev = None -> rescale_offsets W H ev = (ev, None).
Proof.
  intro Hbw. unfold rescale_offsets. rewrite Hbw.
  destruct (offsetX ev); reflexivity.
Qed.

(** The pixel against the exact image of the offset. *)
Lemma pixel_error x size rect :
  (Z.abs x <= 2 ^ 53)%Z ->
  Qabs (inject_Z (py_round (rnd (inject_Z x * rnd (inject_Z size / rect))))
        - inject_Z x * (inject_Z size / rect))
  <= (1 # 2) + Qabs (inject_Z x * (inject_Z size / rect)) * pow2 (-51)
     + pow2 (-1000).
Proof.
  intro B. pose proof (scaling_error x size rect B) as E.
  set (p := rnd (inject_Z x * rnd (inject_Z size / rect))) in *.
  set (t := inject_Z x * (inject_Z size / rect)) in *.
  destruct (py_round_near p) as [L U].
  assert (Qabs (inject_Z (py_round p) - p) <= 1 # 2) as R
      by (apply Qabs_Qle_condition; split; simpl; lra).
  assert (inject_Z (py_round p) - t == (inject_Z (py_round p) - p) + (p - t))
    as D by ring.
  rewrite D.
  pose proof (Qabs_triangle (inject_Z (py_round p) - p) (p - t)) as T.
  lra.
Qed.

(** An offset inside the rect lands on the canvas. *)
Lemma pixel_on_canvas x size rect :
  (0 <= size < 2 ^ 31)%Z -> (0 <= x <= 2 ^ 53)%Z ->
  0 < rect -> inject_Z x <= rect ->
  (0 <= py_round (rnd (inject_Z x * rnd (inject_Z size / rect))) <= size)%Z.
Proof.
  intros [S0 S1] [X0 X1] Pr Xr.
  assert (0 <= inject_Z x) as QX
      by (change 0 with (inject_Z 0); rewrite <- Zle_Qle; exact X0).
  assert (0 <= inject_Z size) as QS
      by (change 0 with (inject_Z 0); rewrite <- Zle_Qle; exact S0).
  assert (inject_Z size <= inject_Z (2 ^ 31)) as QS1
      by (rewrite <- Zle_Qle; lia).
  assert (0 <= inject_Z size / rect) as Pt
      by (apply Qle_shift_div_l; [exact Pr | lra]).
  set (t := inject_Z size / rect) in *.
  assert (0 <= inject_Z x * t /\ inject_Z x * t <= inject_Z size) as [T0 T1].
  { assert (t * rect == inject_Z size) as E by (unfold t; field; lra).
    split; [apply Qmult_le_0_compat; assumption | ].
    rewrite <- E, (Qmult_comm t). apply Qmult_le_compat_r; assumption. }
  split.
  - apply py_round_nonneg. apply rnd_nonneg.
    apply Qmult_le_0_compat; [exact QX | apply rnd_nonneg; exact Pt].
  - apply py_round_below.
    assert (Z.abs x <= 2 ^ 53)%Z as B by lia.
    pose proof (scaling_error x size rect B) as E. fold t in E.
    set (p := rnd (inject_Z x * rnd t)) in *.
    assert (p - inject_Z x * t <= Qabs (p - inject_Z x * t)) as A
        by apply Qle_Qabs.
    rewrite (Qabs_pos (inject_Z x * t)) in E by exact T0.
    assert (inject_Z (2 ^ 31) * pow2 (-51) + pow2 (-1000) < 1 # 2) as C
        by (vm_compute; reflexivity).
    pose proof (pow2_pos (-51)) as P51.
    assert (inject_Z x * t * pow2 (-51) <= inject_Z (2 ^ 31) * pow2 (-51)) as M
        by (apply Qmult_le_compat_r; lra).
    lra.
Qed.

Section Claims.

Variable time_at : nat -> Q.
Variable fault : nat -> call -> option string.
Variable KEY_TO_SYM : string -> option string.

Local Arguments Qle_bool : simpl never.
Local Arguments Qeq_bool : simpl never.
Local Arguments Qltb : simpl never.
Local Arguments Qplus : simpl never.
Local Arguments Qminus : simpl never.
Local Arguments Qmult : simpl never.
Local Arguments Qdiv : simpl never.
Local Arguments inject_Z : simpl never.
Local Arguments py_round : simpl never.
Local Arguments String.eqb : simpl nomatch.

(** Unfolding of the monad's operations. *)
Ltac monad :=
  cbv beta iota delta
    [bind ret raise try_except get_self gets modify assign when item mark
     world_of res_of fst snd].

(** *** The delay stays in its range *)

Lemma run_keeps_delay_in_range inputs w :
  range_as_constructed w -> delay_in_range w ->
  range_as_constructed (run time_at fault KEY_TO_SYM inputs w) /\ delay_in_range (run time_at fault KEY_TO_SYM inputs w).
Proof.
  intros R D.
  apply (reach_invariant any_fp
           (fun x => range_as_constructed x /\ delay_in_range x))
    with (w := w); [ | apply run_reach | split; assumption].
  intros a x _. apply atom_keeps_delay_in_range.
Qed.

Lemma update_canvas_keeps_self b w :
  self (world_of (update_canvas fault b w)) = self w.
Proof.
  unfold update_canvas, ext. monad. destruct b; monad.
  all: repeat match goal with
         | |- context [fault ?n ?c] => destruct (fault n c)
         end; reflexivity.
Qed.

Lemma constructed_in_range size le tb aw q oc w :
  res_of (__init__ time_at fault size le tb aw q oc w) = Ok tt ->
  range_as_constructed (world_of (__init__ time_at fault size le tb aw q oc w))
  /\ delay_in_range (world_of (__init__ time_at fault size le tb aw q oc w)).
Proof.
  unfold __init__, ext, time. monad.
  destruct (fault (attempts w) super_init); [discriminate | ].
  destruct (Qltb q 0 || Qltb 100 q); [discriminate | ].
  monad.
  destruct (fault _ (SetOffScreenRendering 1)); [discriminate | ].
  destruct (fault _ GetSize); [discriminate | ].
  match goal with
  | |- context [update_canvas fault true ?x] =>
      pose proof (update_canvas_keeps_self true x) as E;
      unfold world_of in E;
      destruct (update_canvas fault true x) as [[[] | e] w1]
  end; simpl in *; [ | discriminate].
  intros _. unfold range_as_constructed, delay_in_range. simpl. rewrite E. simpl.
  split; [reflexivity | split; [apply Qle_refl | discriminate]].
Qed.

(** C2.  The quick-render delay is an invariant of the session: a widget
    that has been constructed has its delay inside [0.001, 2.0], and
    after any sequence of inputs (DOM events and touch callbacks, with any
    clock and any behaviour of the collaborators) it is still there. *)
Theorem quick_render_delay_in_range size le tb aw q oc w0 inputs :
  res_of (__init__ time_at fault size le tb aw q oc w0) = Ok tt ->
  delay_in_range (world_of (__init__ time_at fault size le tb aw q oc w0))
  /\ delay_in_range (run time_at fault KEY_TO_SYM inputs (world_of (__init__ time_at fault size le tb aw q oc w0))).
Proof.
  intro H. destruct (constructed_in_range _ _ _ _ _ _ _ H) as [R D].
  split; [exact D | ].
  apply run_keeps_delay_in_range; assumption.
Qed.

(** *** Rescaling *)

(** C7.  An event that carries offsets and a bounding rect has its offsets
    rescaled by canvas size / bounding-rect size and rounded to integers:
    the new offset is round(offset * (size / rect)) in the arithmetic of
    Python, the quotient and the product each rounded to a double, and it
    lies within half a pixel of the exact image of the offset, up to the
    error of these two roundings.  An event without boundingRectWidth is
    left as it is.  On a canvas 200 wide, offsetX = 50 with
    boundingRectWidth = 100 becomes 100, and that is the position the
    handler hands to the interactor.  Where the exact image is half-way
    between two pixels the doubles decide: on a canvas 300 wide, offsetX =
    11 in a rect 440 wide (exact image 7.5) becomes 7, and offsetX = 85 in
    a rect 408 wide (exact image 62.5) becomes 63. *)
Theorem offsets_rescaled_to_canvas W H ev :
  (forall x y bw bh,
     offsetX ev = Some x -> offsetY ev = Some y ->
     boundingRectWidth ev = Some bw -> boundingRectHeight ev = Some bh ->
     finite_scaling W x bw -> finite_scaling H y bh ->
     let x' := py_round (rnd (inject_Z x * rnd (inject_Z W / bw))) in
     let y' := py_round (rnd (inject_Z y * rnd (inject_Z H / bh))) in
     rescale_offsets W H ev
     = (assign_offsetY y' (assign_offsetX x' ev), None)
     /\ Qabs (inject_Z x' - inject_Z x * (inject_Z W / bw))
        <= (1 # 2) + Qabs (inject_Z x * (inject_Z W / bw)) * pow2 (-51)
           + pow2 (-1000)
     /\ Qabs (inject_Z y' - inject_Z y * (inject_Z H / bh))
        <= (1 # 2) + Qabs (inject_Z y * (inject_Z H / bh)) * pow2 (-51)
           + pow2 (-1000))
  /\ (boundingRectWidth ev = None -> rescale_offsets W H ev = (ev, None))
  /\ (offsetX (fst (rescale_offsets 200 100 enter_event)) = Some 100%Z
      /\ trace (world_of (handle_interaction_event
                            example_clock no_fault example_syms
                            enter_event fresh_world))
         = [SetEventPosition 100 80; EnterEvent])
  /\ (offsetX (fst (rescale_offsets 300 200 (move_in_rect 11 0 440 200)))
      = Some 7%Z
      /\ offsetX (fst (rescale_offsets 300 200 (move_in_rect 85 0 408 200)))
         = Some 63%Z).
Proof.
  split; [ | split; [ | split]].
  - intros x y bw bh Hx Hy Hbw Hbh Fx Fy x' y'. split; [ | split].
    + apply rescale_offsets_scaled; assumption.
    + apply pixel_error. apply Fx.
    + apply pixel_error. apply Fy.
  - apply rescale_offsets_skipped.
  - split; vm_compute; reflexivity.
  - split; vm_compute; reflexivity.
Qed.

(** *** Construction *)

(** C8.  A quality inside [0, 100], bounds included, passes the check of
    the constructor: no ValueError is raised, and with collaborators that
    do not fail the construction succeeds and keeps the quality.  A
    quality below 0 or above 100 makes the constructor raise, with the
    ValueError as soon as the base class is initialised, and nothing has
    been encoded by then. *)
Theorem quality_checked_at_construction size le tb aw q oc w :
  (0 <= q /\ q <= 100 ->
     (forall msg, res_of (__init__ time_at fault size le tb aw q oc w)
                  <> Raise (ValueError msg))
     /\ (fault_free fault ->
         res_of (__init__ time_at fault size le tb aw q oc w) = Ok tt
         /\ _quality
              (self (world_of (__init__ time_at fault size le tb aw q oc w)))
            = q))
  /\ (q < 0 \/ 100 < q ->
        (exists e,
           res_of (__init__ time_at fault size le tb aw q oc w) = Raise e)
        /\ (fault (attempts w) super_init = None ->
            res_of (__init__ time_at fault size le tb aw q oc w)
            = Raise (ValueError
                       "`quality` parameter must be between 0 and 100"))
        /\ count is_save_JPEG
             (trace (world_of (__init__ time_at fault size le tb aw q oc w)))
           = count is_save_JPEG (trace w)).
Proof.
  split.
  - intros [Lo Hi].
    apply Qltb_false in Lo. apply Qltb_false in Hi.
    unfold __init__, update_canvas, ext, time. monad.
    rewrite Lo, Hi. simpl. split.
    + intro msg.
      repeat match goal with
        | |- context [fault ?n ?c] => destruct (fault n c)
        end; simpl; discriminate.
    + intro NF. repeat (rewrite NF; simpl). split; reflexivity.
  - intro Out.
    assert (Qltb q 0 || Qltb 100 q = true) as E.
    { apply orb_true_iff. destruct Out as [O | O];
        [left | right]; apply Qltb_true; exact O. }
    unfold __init__, ext. monad. rewrite E.
    destruct (fault (attempts w) super_init) as [msg | ]; simpl.
    + split; [eexists; reflexivity | ]. split; [discriminate | reflexivity].
    + split; [eexists; reflexivity | ]. split; [reflexivity | ].
      rewrite count_app. unfold count. simpl. apply Nat.add_0_r.
Qed.

(** *** Teardown *)

Lemma close_fault_free w :
  fault_free fault ->
  world_of (close fault w)
  = if _on_close (self w)
    then emit on_close (bump (emit super_close (bump w)))
    else emit super_close (bump w).
Proof.
  intro NF. unfold close, ext. monad. rewrite NF. simpl.
  destruct (_on_close (self w)); simpl; [rewrite NF | ]; reflexivity.
Qed.

(** C4, as the code has it.  [close] has no guard: with a base class and
    a callback that do not raise, every call of [close] invokes the user's
    cleanup callback once more, so [n] calls invoke it [n] times (the
    second call is not a no-op).  Without a user callback the default
    [lambda: None] runs and nothing is invoked. *)
Theorem close_invokes_callback_each_time n :
  fault_free fault ->
  forall w,
    count is_on_close (trace (close_times fault n w))
    = (count is_on_close (trace w)
       + if _on_close (self w) then n else 0)%nat.
Proof.
  intro NF. induction n as [ | n IH]; intro w; simpl.
  - destruct (_on_close (self w)); symmetry; apply Nat.add_0_r.
  - rewrite IH, (close_fault_free w NF).
    destruct (_on_close (self w)) eqn:E; simpl; rewrite E.
    + rewrite !count_app. unfold count. simpl. lia.
    + rewrite !count_app. unfold count. simpl. lia.
Qed.

(** *** Touch exclusivity *)

(** C5, as the code has it.  While [_touching] is true an event without
    the key touch_event is dropped: nothing is injected and nothing is
    rendered (the trace is unchanged, no collaborator is called, the clock
    is not read), the drag state, the pending move, the delay controller
    and the error field are unchanged.  The one change is the event log:
    with logging enabled the event, as the rescaling left it, is appended
    to [logged_events]; with logging disabled the world is unchanged. *)
Theorem touching_drops_untagged_events ev w :
  _touching (self w) = true -> touch_event ev = None ->
  let w' := world_of (handle_interaction_event time_at fault KEY_TO_SYM
                        ev w) in
  let logged :=
    match event ev with
    | Some _ => fst (rescale_offsets (width (self w)) (height (self w)) ev)
    | None => ev
    end in
  w' = (if log_events (self w)
        then on_self (upd_logged_events (logged_events (self w) ++ [logged]))
                     w
        else w)
  /\ trace w' = trace w /\ attempts w' = attempts w /\ ticks w' = ticks w
  /\ controller_state w' = controller_state w
  /\ last_mouse_move_event (self w') = last_mouse_move_event (self w)
  /\ error (self w') = error (self w).
Proof.
  intros T U.
  assert (world_of (handle_interaction_event time_at fault KEY_TO_SYM ev w)
          = if log_events (self w)
            then on_self
                   (upd_logged_events
                      (logged_events (self w)
                         ++ [match event ev with
                             | Some _ =>
                                 fst (rescale_offsets (width (self w))
                                        (height (self w)) ev)
                             | None => ev
                             end])) w
            else w) as E.
  { unfold handle_interaction_event, log_event, dispatch. monad.
    destruct (event ev) as [name | ].
    - pose proof (rescale_offsets_keeps (width (self w)) (height (self w))
                    ev) as K.
      destruct (rescale_offsets (width (self w)) (height (self w)) ev)
        as [ev' failure].
      simpl in K. destruct K as [_ [K _]].
      destruct (log_events (self w)); simpl;
        destruct failure; simpl; try reflexivity;
        rewrite T, K, U; reflexivity.
    - destruct (log_events (self w)); reflexivity. }
  cbv zeta. rewrite E.
  destruct (log_events (self w)); repeat split; reflexivity.
Qed.

(** *** Failures in the render paths *)

Lemma throttle_never_raises wait last upd fn w :
  (forall x, res_of (fn x) = Ok tt) ->
  res_of (throttle time_at wait last upd fn w) = Ok tt.
Proof.
  intro Hfn. unfold throttle, time. monad.
  destruct (Qle_bool wait (time_at (ticks w) - last (tick w)));
    [apply Hfn | reflexivity].
Qed.

Lemma try_except_recorded (body : M unit) w :
  res_of (try_except body (fun e => assign (upd_error (Some (str e)))) w)
  = Ok tt.
Proof.
  unfold try_except, assign, modify, res_of.
  destruct (body w) as [[[] | e] w1]; reflexivity.
Qed.

Lemma full_render_never_raises w :
  res_of (full_render time_at fault w) = Ok tt.
Proof.
  unfold full_render, mark. monad.
  apply throttle_never_raises. intro x. apply try_except_recorded.
Qed.



(** *** The adaptive delay *)

Lemma bind_ok {A B} (m : M A) (k : A -> M B) w a w1 :
  m w = (Ok a, w1) -> bind m k w = k a w1.
Proof. intro E. unfold bind. rewrite E. reflexivity. Qed.

Lemma bind_assign {B} f (k : unit -> M B) w :
  bind (assign f) k w = k tt (on_self f w).
Proof. reflexivity. Qed.

Lemma bind_modify {B} f (k : unit -> M B) w :
  bind (modify f) k w = k tt (f w).
Proof. reflexivity. Qed.

Lemma bind_get_self {B} (k : Widget -> M B) w :
  bind get_self k w = k (self w) w.
Proof. reflexivity. Qed.

Lemma bind_time {B} (k : Q -> M B) w :
  bind (time time_at) k w = k (time_at (ticks w)) (tick w).
Proof. reflexivity. Qed.

Lemma bind_ret {A B} (a : A) (k : A -> M B) w : bind (ret a) k w = k a w.
Proof. reflexivity. Qed.





Lemma quick_render_keeps_controller w :
  controller_state (world_of (quick_render time_at fault KEY_TO_SYM w))
  = controller_state w.
Proof.
  apply render_fp_keeps_controller, quick_render_effects. auto.
Qed.

Lemma full_render_keeps_controller w :
  controller_state (world_of (full_render time_at fault w))
  = controller_state w.
Proof.
  apply render_fp_keeps_controller, full_render_effects. auto.
Qed.


(** *** The handler, for an event that passes the touch gate *)

Lemma log_event_spec ev w :
  log_event ev w = (Ok tt, world_of (log_event ev w))
  /\ controller_state (world_of (log_event ev w)) = controller_state w
  /\ trace (world_of (log_event ev w)) = trace w
  /\ ticks (world_of (log_event ev w)) = ticks w
  /\ attempts (world_of (log_event ev w)) = attempts w
  /\ last_mouse_move_event (self (world_of (log_event ev w)))
     = last_mouse_move_event (self w)
  /\ full_render_last_call (world_of (log_event ev w))
     = full_render_last_call w
  /\ quick_render_last_call (world_of (log_event ev w))
     = quick_render_last_call w
  /\ (adaptive_render_delay (self (world_of (log_event ev w)))
      = adaptive_render_delay (self w)
      /\ track_mouse_move (self (world_of (log_event ev w)))
         = track_mouse_move (self w)
      /\ watched_wheel (self (world_of (log_event ev w)))
         = watched_wheel (self w)).
Proof.
  unfold log_event. monad.
  destruct (log_events (self w)); simpl; repeat split; reflexivity.
Qed.

Lemma handle_accepted ev name ev' w :
  event ev = Some name ->
  rescale_offsets (width (self w)) (height (self w)) ev = (ev', None) ->
  gate_open ev w ->
  handle_interaction_event time_at fault KEY_TO_SYM ev w
  = try_except
      (if String.eqb name "mousemove"
       then on_mousemove time_at fault KEY_TO_SYM ev'
       else if String.eqb name "mouseenter"
       then on_mouseenter fault KEY_TO_SYM ev'
       else if String.eqb name "mouseleave"
       then on_mouseleave time_at fault KEY_TO_SYM ev'
       else if String.eqb name "mousedown"
       then on_mousedown time_at fault KEY_TO_SYM ev'
       else if String.eqb name "mouseup"
       then on_mouseup time_at fault KEY_TO_SYM ev'
       else if String.eqb name "keydown"
       then on_keydown time_at fault KEY_TO_SYM ev'
       else if String.eqb name "keyup"
       then on_keyup time_at fault KEY_TO_SYM ev'
       else if String.eqb name "wheel"
       then on_wheel time_at fault KEY_TO_SYM ev'
       else ret tt)
      (fun e => assign (upd_error (Some (str e))))
      (world_of (log_event ev' w)).
Proof.
  intros Hn Hr G. unfold handle_interaction_event.
  rewrite bind_get_self, Hn, Hr.
  destruct (log_event_spec ev' w) as [L [C _]].
  erewrite bind_ok by exact L.
  unfold try_except, dispatch. rewrite bind_get_self.
  assert (_touching (self (world_of (log_event ev' w)))
          && match touch_event ev' with None => true | _ => false end
          = false) as Gate.
  { pose proof (rescale_offsets_keeps (width (self w)) (height (self w))
                  ev) as K.
    rewrite Hr in K. simpl in K. destruct K as [_ [K _]]. rewrite K.
    assert (_touching (self (world_of (log_event ev' w)))
            = _touching (self w)) as Tl.
    { unfold controller_state in C. congruence. }
    rewrite Tl. destruct G as [G | G].
    - rewrite G. reflexivity.
    - destruct (touch_event ev); [apply andb_false_r | congruence]. }
  rewrite Gate. reflexivity.
Qed.


Lemma try_except_error_controller (m : M unit) w :
  res_of (m w) = Ok tt ->
  world_of (try_except m (fun e => assign (upd_error (Some (str e)))) w)
  = world_of (m w).
Proof.
  unfold try_except, res_of, world_of.
  destruct (m w) as [[[] | e] w1]; simpl; [reflexivity | discriminate].
Qed.


(** *** Injection of events when the collaborators do not fail *)

Lemma bind_interactor {B} (k : unit -> M B) w :
  fault_free fault -> bind (interactor fault) k w = k tt (bump w).
Proof. intro NF. unfold bind, interactor. rewrite NF. reflexivity. Qed.

Lemma bind_ext {B} c (k : unit -> M B) w :
  fault_free fault -> bind (ext fault c) k w = k tt (emit c (bump w)).
Proof. intro NF. unfold bind, ext. rewrite NF. reflexivity. Qed.

Lemma ext_ok c w :
  fault_free fault -> ext fault c w = (Ok tt, emit c (bump w)).
Proof. intro NF. unfold ext. rewrite NF. reflexivity. Qed.

Lemma res_ok_eq (m : M unit) w :
  res_of (m w) = Ok tt -> m w = (Ok tt, world_of (m w)).
Proof.
  unfold res_of, world_of. destruct (m w) as [r w1]. simpl.
  intro E. rewrite E. reflexivity.
Qed.

Lemma update_interactor_event_data_ok ev w :
  update_interactor_event_data fault KEY_TO_SYM ev w
  = (Ok tt, world_of (update_interactor_event_data fault KEY_TO_SYM ev w)).
Proof. apply res_ok_eq, try_except_recorded. Qed.

Lemma send_pending_mouse_move_event_ok w :
  fault_free fault ->
  send_pending_mouse_move_event fault KEY_TO_SYM w
  = (Ok tt, world_of (send_pending_mouse_move_event fault KEY_TO_SYM w)).
Proof.
  intro NF. apply res_ok_eq. unfold send_pending_mouse_move_event.
  rewrite bind_get_self.
  destruct (last_mouse_move_event (self w)); [ | reflexivity].
  erewrite bind_ok by apply update_interactor_event_data_ok.
  rewrite (bind_interactor _ _ NF), (bind_ext _ _ _ NF). reflexivity.
Qed.


Lemma full_render_trace w :
  exists post,
    trace (world_of (full_render time_at fault w))
    = trace w ++ full_render_called :: post
    /\ Forall (fun c => is_render_call c = true) post.
Proof.
  unfold full_render, mark. rewrite bind_modify.
  destruct (reach_trace paint_fp _ _
              (throttled_full_render_effects time_at fault paint_fp
                 (fun a H => H) (emit full_render_called w)))
    as [post [Ep Hp]].
  exists post. rewrite Ep. simpl. rewrite <- app_assoc.
  split; [reflexivity | exact Hp].
Qed.

(** *** Keys *)










(** *** Leaving the canvas *)

Lemma setter_fp_frame w w' :
  reach setter_fp w w' ->
  controller_state w' = controller_state w
  /\ last_mouse_move_event (self w') = last_mouse_move_event (self w)
  /\ exists l, trace w' = trace w ++ l
               /\ Forall (fun c => is_setter c = true) l.
Proof.
  intro R. split; [ | split].
  - apply render_fp_keeps_controller. revert R. apply reach_mono.
    intros a Ha. apply inject_in_render, setter_in_inject, Ha.
  - apply (reach_invariant setter_fp
             (fun x => last_mouse_move_event (self x)
                       = last_mouse_move_event (self w)))
      with (w := w); [ | exact R | reflexivity].
    intros a x Fa Px. rewrite <- Px.
    destruct a; simpl in Fa; try discriminate; reflexivity.
  - destruct (reach_trace setter_fp w w' R) as [l [E Hl]].
    exists l. split; [exact E | exact Hl].
Qed.






(** *** A drag, step by step *)























(** ** Further properties of the handler *)

Lemma log_event_ok ev w : log_event ev w = (Ok tt, world_of (log_event ev w)).
Proof. unfold log_event. monad. destruct (log_events (self w)); reflexivity. Qed.

(** After the logging, everything the handler does stays within the
    footprint of its branches. *)
Lemma handle_after_log ev w :
  reach handler_fp (world_of (log_event (logged_form w ev) w))
    (world_of (handle_interaction_event time_at fault KEY_TO_SYM ev w)).
Proof.
  unfold handle_interaction_event, logged_form.
  rewrite bind_get_self.
  destruct (event ev) as [name | ].
  - destruct (rescale_offsets (width (self w)) (height (self w)) ev)
      as [ev' failure].
    simpl fst. erewrite bind_ok by apply log_event_ok.
    destruct failure as [e | ]; [apply reach_refl | ].
    apply (effects_try handler_fp).
    + apply dispatch_effects. auto.
    + intro e. apply (effects_atom _ (a_error (Some (str e)))); reflexivity.
  - erewrite bind_ok by apply log_event_ok. apply reach_refl.
Qed.

Lemma rescale_offsets_failures W H ev e :
  snd (rescale_offsets W H ev) = Some e ->
  e = ZeroDivisionError \/ e = KeyError "boundingRectHeight"
  \/ e = KeyError "offsetY"
  \/ e = OverflowError "int too large to convert to float"
  \/ e = OverflowError "cannot convert float infinity to integer"
  \/ e = ValueError "cannot convert float NaN to integer".
Proof.
  unfold rescale_offsets.
  destruct (offsetX ev) as [x | ], (boundingRectWidth ev) as [bw | ]; simpl;
    try discriminate.
  destruct (scale_of W bw) as [sx | e1] eqn:S1; simpl.
  2: { intro E; inversion E; subst.
       destruct (scale_of_raises _ _ _ S1) as [K | K]; auto 10. }
  destruct (scaled_offset x sx) as [x' | e2] eqn:S2; simpl.
  2: { intro E; inversion E; subst.
       destruct (scaled_offset_raises _ _ _ S2) as [K | [K | K]]; auto 10. }
  destruct (boundingRectHeight ev) as [bh | ]; simpl;
    [ | intro E; inversion E; auto].
  destruct (scale_of H bh) as [sy | e3] eqn:S3; simpl.
  2: { intro E; inversion E; subst.
       destruct (scale_of_raises _ _ _ S3) as [K | K]; auto 10. }
  destruct (offsetY ev) as [y | ]; simpl; [ | intro E; inversion E; auto].
  destruct (scaled_offset y sy) as [y' | e4] eqn:S4; simpl;
    [discriminate | ].
  intro E; inversion E; subst.
  destruct (scaled_offset_raises _ _ _ S4) as [K | [K | K]]; auto 10.
Qed.

(** X1.  What can leave [handle_interaction_event]: only the exceptions
    raised before its [try], that is the KeyError of an event without the
    key event, and what the rescaling raises: ZeroDivisionError, KeyError,
    and the OverflowError or ValueError of an int too large for a float or
    of a product that is infinite or not a number.  For an event that has
    a name and whose rescaling does not fail the handler returns normally
    whatever the collaborators do, and when its branch raised, the message
    is in the [error] field. *)
Theorem handler_swallows_failures ev w :
  (forall e,
     res_of (handle_interaction_event time_at fault KEY_TO_SYM ev w)
     = Raise e ->
     e = KeyError "event" \/ e = ZeroDivisionError
     \/ e = KeyError "boundingRectHeight" \/ e = KeyError "offsetY"
     \/ e = OverflowError "int too large to convert to float"
     \/ e = OverflowError "cannot convert float infinity to integer"
     \/ e = ValueError "cannot convert float NaN to integer")
  /\ (event ev <> None ->
      snd (rescale_offsets (width (self w)) (height (self w)) ev) = None ->
      res_of (handle_interaction_event time_at fault KEY_TO_SYM ev w)
      = Ok tt)
  /\ (forall name e w1,
        event ev = Some name ->
        snd (rescale_offsets (width (self w)) (height (self w)) ev) = None ->
        dispatch time_at fault KEY_TO_SYM name (logged_form w ev)
          (world_of (log_event (logged_form w ev) w)) = (Raise e, w1) ->
        handle_interaction_event time_at fault KEY_TO_SYM ev w
        = (Ok tt, on_self (upd_error (Some (str e))) w1)).
Proof.
  unfold handle_interaction_event, logged_form.
  rewrite bind_get_self.
  destruct (event ev) as [name | ].
  - pose proof (rescale_offsets_failures (width (self w)) (height (self w))
                  ev) as Fl.
    destruct (rescale_offsets (width (self w)) (height (self w)) ev)
      as [ev' failure].
    simpl in *. erewrite bind_ok by apply log_event_ok.
    destruct failure as [e0 | ].
    + split; [ | split].
      * intros e E. inversion E. subst. right. apply Fl. reflexivity.
      * intros _ H. discriminate H.
      * intros ? ? ? _ H. discriminate H.
    + split; [ | split].
      * intros e E. rewrite try_except_recorded in E. discriminate E.
      * intros _ _. apply try_except_recorded.
      * intros name' e w1 Hn _ D. inversion Hn. subst name'.
        unfold try_except. rewrite D. reflexivity.
  - erewrite bind_ok by apply log_event_ok. split; [ | split].
    + intros e E. inversion E. auto.
    + intro H. contradiction H. reflexivity.
    + intros ? ? ? H. discriminate H.
Qed.

(** X2.  Every event handed to the handler is appended to [logged_events]
    exactly once when logging is enabled, whether it is then processed,
    dropped at the touch gate or makes the handler raise; nothing else in
    the handler writes to the log, and with logging disabled the log is
    unchanged. *)
Theorem every_event_is_logged_once ev w :
  logged_events
    (self (world_of (handle_interaction_event time_at fault KEY_TO_SYM ev w)))
  = if log_events (self w)
    then logged_events (self w) ++ [logged_form w ev]
    else logged_events (self w).
Proof.
  pose proof (handle_after_log ev w) as R.
  apply (reach_invariant handler_fp
           (fun x => logged_events (self x)
                     = logged_events
                         (self (world_of (log_event (logged_form w ev) w)))))
    in R; [ | | reflexivity].
  - rewrite R. unfold log_event. monad.
    destruct (log_events (self w)); reflexivity.
  - intros a x Fa Px. rewrite <- Px.
    destruct a; simpl in Fa; try discriminate; try reflexivity.
    simpl. destruct (message_timestamp_offset (self x)); reflexivity.
Qed.

Lemma atom_keeps_config a w : config_view (apply_atom a w) = config_view w.
Proof.
  destruct a; try reflexivity.
  simpl. destruct (message_timestamp_offset (self w)); reflexivity.
Qed.

(** X3.  The handler never changes the touch state: [_touching] and
    [_last_touch] are the same after any event, only the touch callbacks
    write them.  And no input of a session, event or touch callback, changes
    the configuration of the widget: the canvas size, the quality, the
    range of the delay and the toggles stay as constructed. *)
Theorem handler_keeps_touch_state_and_config ev w :
  (_touching
     (self (world_of (handle_interaction_event time_at fault KEY_TO_SYM
                        ev w)))
   = _touching (self w)
   /\ _last_touch
        (self (world_of (handle_interaction_event time_at fault KEY_TO_SYM
                           ev w)))
      = _last_touch (self w))
  /\ forall inputs,
       config_view (run time_at fault KEY_TO_SYM inputs w) = config_view w.
Proof.
  split.
  - pose proof (handle_after_log ev w) as R.
    apply (reach_invariant handler_fp
             (fun x => (_touching (self x), _last_touch (self x))
                       = (_touching (self w), _last_touch (self w))))
      in R.
    + inversion R. split; reflexivity.
    + intros a x Fa Px. rewrite <- Px.
      destruct a; simpl in Fa; try discriminate; try reflexivity.
      simpl. destruct (message_timestamp_offset (self x)); reflexivity.
    + unfold log_event. monad. destruct (log_events (self w)); reflexivity.
  - intro inputs.
    apply (reach_invariant any_fp (fun x => config_view x = config_view w))
      with (w := w); [ | apply run_reach | reflexivity].
    intros a x _ Px. rewrite atom_keeps_config. exact Px.
Qed.

(** *** Moves outside a drag *)

Lemma on_mousemove_idle ev w :
  dragging (self w) = false -> track_mouse_move (self w) = false ->
  trace (world_of (on_mousemove time_at fault KEY_TO_SYM ev w)) = trace w
  /\ attempts (world_of (on_mousemove time_at fault KEY_TO_SYM ev w))
     = attempts w
  /\ quick_render_delay_sec
       (self (world_of (on_mousemove time_at fault KEY_TO_SYM ev w)))
     = quick_render_delay_sec (self w)
  /\ (timeStamp ev <> None \/ message_timestamp_offset (self w) <> None ->
      on_mousemove time_at fault KEY_TO_SYM ev w
      = (Ok tt, world_of (on_mousemove time_at fault KEY_TO_SYM ev w))
      /\ last_mouse_move_event
           (self (world_of (on_mousemove time_at fault KEY_TO_SYM ev w)))
         = Some ev).
Proof.
  intros Dr Tr. unfold on_mousemove, capture_timestamp_offset, time.
  monad.
  destruct (message_timestamp_offset (self w)) as [o | ] eqn:Off.
  - simpl. rewrite Dr, Tr. simpl. repeat split; reflexivity.
  - destruct (timeStamp ev) as [ts | ]; simpl.
    + rewrite Dr, Tr. simpl. repeat split; reflexivity.
    + repeat split; try reflexivity;
        destruct H as [H | H]; contradiction H; reflexivity.
Qed.

(** X4.  A mousemove received while neither dragging nor tracking mouse
    moves is silent: whatever its content, the state of the touch gate and
    the collaborators, the handler calls no collaborator (nothing is
    injected, nothing is rendered) and leaves the render delay alone.  When
    the event passes the gate it is only remembered as the pending move. *)
Theorem idle_mousemove_is_silent ev w :
  event ev = Some "mousemove" ->
  dragging (self w) = false -> track_mouse_move (self w) = false ->
  (trace (world_of (handle_interaction_event time_at fault KEY_TO_SYM ev w))
   = trace w
   /\ attempts
        (world_of (handle_interaction_event time_at fault KEY_TO_SYM ev w))
      = attempts w
   /\ quick_render_delay_sec
        (self (world_of (handle_interaction_event time_at fault KEY_TO_SYM
                           ev w)))
      = quick_render_delay_sec (self w))
  /\ (gate_open ev w ->
      snd (rescale_offsets (width (self w)) (height (self w)) ev) = None ->
      timeStamp ev <> None \/ message_timestamp_offset (self w) <> None ->
      last_mouse_move_event
        (self (world_of (handle_interaction_event time_at fault KEY_TO_SYM
                           ev w)))
      = Some (fst (rescale_offsets (width (self w)) (height (self w)) ev))).
Proof.
  intros Hn Dr Tr.
  pose proof (rescale_offsets_keeps (width (self w)) (height (self w)) ev)
    as K.
  destruct (rescale_offsets (width (self w)) (height (self w)) ev)
    as [ev' failure] eqn:Er.
  simpl in K. destruct K as [_ [_ [K _]]]. simpl fst. simpl snd.
  destruct (log_event_spec ev' w) as [L [C [Tl [_ [Al _]]]]].
  set (wl := world_of (log_event ev' w)) in *.
  assert (dragging (self wl) = false /\ track_mouse_move (self wl) = false
          /\ quick_render_delay_sec (self wl) = quick_render_delay_sec (self w)
          /\ message_timestamp_offset (self wl)
             = message_timestamp_offset (self w)) as [Drl [Trl [Dl Ol]]].
  { subst wl. unfold log_event. monad.
    destruct (log_events (self w)); simpl; auto. }
  destruct (on_mousemove_idle ev' wl Drl Trl) as [T1 [A1 [D1 P]]].
  split.
  - unfold handle_interaction_event. rewrite bind_get_self, Hn, Er.
    erewrite bind_ok by exact L. fold wl.
    destruct failure; [simpl; repeat split; congruence | ].
    unfold try_except, dispatch. rewrite bind_get_self.
    destruct (_touching (self wl)
              && match touch_event ev' with None => true | _ => false end).
    + simpl. repeat split; congruence.
    + change (String.eqb "mousemove" "mousemove") with true. cbv iota.
      unfold world_of in *.
      destruct (on_mousemove time_at fault KEY_TO_SYM ev' wl)
        as [[[] | e] w1]; simpl in *; repeat split; congruence.
  - intros G Hr Ts. subst failure.
    rewrite (handle_accepted ev "mousemove" ev' w Hn Er G).
    change (String.eqb "mousemove" "mousemove") with true. cbv iota.
    fold wl.
    assert (timeStamp ev' <> None \/ message_timestamp_offset (self wl) <> None)
      as Ts' by (rewrite K, Ol; exact Ts).
    destruct (P Ts') as [E Pe].
    rewrite (try_except_error_controller _ wl); [exact Pe | ].
    unfold res_of. rewrite E. reflexivity.
Qed.

(** *** Buttons, entering and the wheel *)

(** Comparison of the name of an event with the names of the branches. *)
Ltac names :=
  repeat match goal with
    | |- context [String.eqb ?a ?b] =>
        let v := eval vm_compute in (String.eqb a b) in
        change (String.eqb a b) with v
    end;
  cbv iota.

(** X5.  A mousedown that passes the touch gate starts the drag before
    anything can fail: [dragging] is true afterwards and the handler
    returns normally, whatever the button, whatever the collaborators do
    (even when the render window is gone and every injection raises). *)
Theorem mousedown_always_starts_drag ev w :
  event ev = Some "mousedown" -> gate_open ev w ->
  snd (rescale_offsets (width (self w)) (height (self w)) ev) = None ->
  res_of (handle_interaction_event time_at fault KEY_TO_SYM ev w) = Ok tt
  /\ dragging
       (self (world_of (handle_interaction_event time_at fault KEY_TO_SYM
                          ev w)))
     = true.
Proof.
  intros Hn G Hr.
  destruct (rescale_offsets (width (self w)) (height (self w)) ev)
    as [ev' failure] eqn:Er.
  simpl in Hr. subst failure.
  rewrite (handle_accepted ev "mousedown" ev' w Hn Er G).
  simpl String.eqb. cbv iota.
  split; [apply try_except_recorded | ].
  set (wl := world_of (log_event ev' w)).
  pose proof (on_mousedown_after_drag time_at fault KEY_TO_SYM render_fp
                (fun a H => H) ev' wl) as R.
  apply render_fp_keeps_controller in R.
  unfold try_except, world_of in *.
  destruct (on_mousedown time_at fault KEY_TO_SYM ev' wl) as [[[] | e] w1];
    simpl in *; unfold controller_state in R; inversion R; reflexivity.
Qed.

(** X6.  A mouseenter that passes the touch gate, with an interactor that
    does not fail: the position (and modifiers) of the event are set and
    EnterEvent is injected; the pending move is discarded without being
    injected, and no render is requested. *)
Theorem mouseenter_discards_pending_move ev w :
  event ev = Some "mouseenter" -> gate_open ev w -> fault_free fault ->
  snd (rescale_offsets (width (self w)) (height (self w)) ev) = None ->
  last_mouse_move_event
    (self (world_of (handle_interaction_event time_at fault KEY_TO_SYM ev w)))
  = None
  /\ exists pre,
       trace (world_of (handle_interaction_event time_at fault KEY_TO_SYM
                          ev w))
       = trace w ++ pre ++ [EnterEvent]
       /\ Forall (fun c => is_setter c = true) pre.
Proof.
  intros Hn G NF Hr.
  destruct (rescale_offsets (width (self w)) (height (self w)) ev)
    as [ev' failure] eqn:Er.
  simpl in Hr. subst failure.
  destruct (log_event_spec ev' w) as [_ [_ [Tl _]]].
  rewrite (handle_accepted ev "mouseenter" ev' w Hn Er G).
  simpl String.eqb. cbv iota.
  set (wl := world_of (log_event ev' w)) in *.
  unfold try_except, on_mouseenter.
  erewrite bind_ok by apply update_interactor_event_data_ok.
  pose proof (update_interactor_event_data_sets fault KEY_TO_SYM
                setter_fp (fun a H => H) ev' wl) as R1.
  destruct (setter_fp_frame _ _ R1) as [_ [_ [pre [E Hpre]]]].
  rewrite (bind_interactor _ _ NF), (bind_ext _ _ _ NF). simpl.
  split; [reflexivity | ].
  exists pre. rewrite E, Tl, <- app_assoc. split; [reflexivity | exact Hpre].
Qed.



(** *** The touch callbacks *)

Lemma handle_named_event_returns ev w :
  event ev <> None ->
  snd (rescale_offsets (width (self w)) (height (self w)) ev) = None ->
  res_of (handle_interaction_event time_at fault KEY_TO_SYM ev w) = Ok tt.
Proof.
  intros Hn Hr. unfold handle_interaction_event. rewrite bind_get_self.
  destruct (event ev) as [name | ]; [ | contradiction Hn; reflexivity].
  destruct (rescale_offsets (width (self w)) (height (self w)) ev)
    as [ev' failure].
  simpl in Hr. subst failure.
  erewrite bind_ok by apply log_event_ok. apply try_except_recorded.
Qed.

Lemma handle_keeps_touching ev w :
  _touching
    (self (world_of (handle_interaction_event time_at fault KEY_TO_SYM ev w)))
  = _touching (self w)
  /\ _last_touch
       (self (world_of (handle_interaction_event time_at fault KEY_TO_SYM
                          ev w)))
     = _last_touch (self w).
Proof.
  pose proof (handle_after_log ev w) as R.
  apply (reach_invariant handler_fp
           (fun x => (_touching (self x), _last_touch (self x))
                     = (_touching (self w), _last_touch (self w))))
    in R.
  - inversion R. split; reflexivity.
  - intros a x Fa Px. rewrite <- Px.
    destruct a; simpl in Fa; try discriminate; try reflexivity.
    simpl. destruct (message_timestamp_offset (self x)); reflexivity.
  - unfold log_event. monad. destruct (log_events (self w)); reflexivity.
Qed.

(** X8.  The callback of a touch end never raises and always clears the
    touch flag: whatever the state of the widget and whatever the
    collaborators do, [_touching] is false afterwards, so a failing renderer
    cannot leave the widget deaf to mouse events. *)
Theorem touch_end_always_clears_touching w :
  res_of (_on_touch_end time_at fault KEY_TO_SYM w) = Ok tt
  /\ _touching (self (world_of (_on_touch_end time_at fault KEY_TO_SYM w)))
     = false.
Proof.
  unfold _on_touch_end. rewrite bind_time.
  set (ev := touch_dict "mouseup" None None (time_at (ticks w)) (Some 0%Z)).
  assert (res_of (handle_interaction_event time_at fault KEY_TO_SYM ev
                    (tick w)) = Ok tt) as H.
  { apply handle_named_event_returns; [discriminate | reflexivity]. }
  apply res_ok_eq in H. erewrite bind_ok by exact H.
  split; reflexivity.
Qed.

Lemma untagged_event_leaves_trace ev w :
  _touching (self w) = true -> touch_event ev = None ->
  trace (world_of (handle_interaction_event time_at fault KEY_TO_SYM ev w))
  = trace w.
Proof.
  intros T U. unfold handle_interaction_event, log_event, dispatch. monad.
  destruct (event ev) as [name | ].
  - pose proof (rescale_offsets_keeps (width (self w)) (height (self w)) ev)
      as K.
    destruct (rescale_offsets (width (self w)) (height (self w)) ev)
      as [ev' failure].
    simpl in K. destruct K as [_ [K _]].
    destruct (log_events (self w)); simpl;
      destruct failure; simpl; try reflexivity;
      rewrite T, K, U; reflexivity.
  - destruct (log_events (self w)); reflexivity.
Qed.

(** X9.  The callbacks of touch start and touch move on an empty list of
    touch points raise IndexError.  The touch start has set [_touching]
    before it fails, and leaves it set: from then on events that are not
    tagged as touch events are dropped.  The touch move changes nothing. *)
Theorem touch_callbacks_on_no_touch_point w :
  _on_touch_start time_at fault KEY_TO_SYM [] w
  = (Raise IndexError, on_self (upd_touching true) w)
  /\ _on_touch_move time_at fault KEY_TO_SYM [] w = (Raise IndexError, w)
  /\ forall ev,
       touch_event ev = None ->
       trace (world_of (handle_interaction_event time_at fault KEY_TO_SYM ev
                          (world_of (_on_touch_start time_at fault KEY_TO_SYM
                                       [] w))))
       = trace w.
Proof.
  split; [reflexivity | split; [reflexivity | ]].
  intros ev U.
  change (world_of (_on_touch_start time_at fault KEY_TO_SYM [] w))
    with (on_self (upd_touching true) w).
  rewrite untagged_event_leaves_trace; [reflexivity | reflexivity | exact U].
Qed.

(** X10.  Touch moves are rate limited to one per 10 ms: a touch move that
    comes less than 0.01 s after the last one that went through only reads
    the clock, nothing else changes; one that comes later sets
    [_last_touch] to the time of its second reading of the clock and hands a
    mousemove tagged as a touch event, at the rounded coordinates of the
    first touch point, to the handler. *)
Theorem touch_move_rate_limit x y rest w :
  (time_at (ticks w) - _last_touch (self w) < 1 # 100 ->
   _on_touch_move time_at fault KEY_TO_SYM ((x, y) :: rest) w
   = (Ok tt, tick w))
  /\ ((1 # 100) <= time_at (ticks w) - _last_touch (self w) ->
      _on_touch_move time_at fault KEY_TO_SYM ((x, y) :: rest) w
      = handle_interaction_event time_at fault KEY_TO_SYM
          (touch_dict "mousemove" (Some (py_round x)) (Some (py_round y))
             (time_at (S (S (ticks w)))) None)
          (tick (on_self (upd_last_touch (time_at (S (ticks w))))
                   (tick (tick w))))
      /\ _last_touch
           (self (world_of (_on_touch_move time_at fault KEY_TO_SYM
                              ((x, y) :: rest) w)))
         = time_at (S (ticks w))).
Proof.
  unfold _on_touch_move. rewrite bind_time, bind_get_self.
  cbn [self tick]. split.
  - intro H. apply Qltb_true in H. rewrite H. reflexivity.
  - intro H. apply Qltb_false in H. rewrite H.
    rewrite bind_time, bind_assign, bind_time. simpl ticks.
    split; [reflexivity | ].
    match goal with
    | |- _ (self (world_of (handle_interaction_event _ _ _ ?e ?x))) = _ =>
        rewrite (proj2 (handle_keeps_touching e x))
    end.
    reflexivity.
Qed.

Lemma full_render_fault_free_error w :
  fault_free fault ->
  error (self (world_of (full_render time_at fault w))) = error (self w).
Proof.
  intro NF.
  unfold full_render, throttle, full_render_fn, full_render_body,
    update_canvas, mark, time, ext.
  monad. simpl.
  destruct (Qle_bool _ _); simpl; [ | reflexivity].
  repeat (rewrite NF; simpl). reflexivity.
Qed.

Lemma update_without_offsetX ev name w :
  fault_free fault -> event ev = Some name ->
  String.eqb name "keydown" || String.eqb name "keyup" = false ->
  offsetX ev = None ->
  update_interactor_event_data fault KEY_TO_SYM ev w
  = (Ok tt, on_self (upd_error (Some "'offsetX'")) (bump w)).
Proof.
  intros NF Hn Hk Hx.
  unfold update_interactor_event_data, update_interactor_event_data_body,
    try_except, bind, item, interactor, ret, raise.
  rewrite Hn. cbv beta iota. rewrite Hk. cbv beta iota.
  rewrite NF. cbv beta iota. rewrite Hx. reflexivity.
Qed.

Lemma send_pending_fault_free w :
  fault_free fault ->
  send_pending_mouse_move_event fault KEY_TO_SYM w
  = (Ok tt, world_of (send_pending_mouse_move_event fault KEY_TO_SYM w))
  /\ controller_state
       (world_of (send_pending_mouse_move_event fault KEY_TO_SYM w))
     = controller_state w
  /\ exists pre,
       trace (world_of (send_pending_mouse_move_event fault KEY_TO_SYM w))
       = trace w ++ pre
       /\ Forall (fun c => is_button_event c = false) pre.
Proof.
  intro NF. split; [apply send_pending_mouse_move_event_ok; exact NF | ].
  unfold send_pending_mouse_move_event. rewrite bind_get_self.
  destruct (last_mouse_move_event (self w)) as [m | ].
  - erewrite bind_ok by apply update_interactor_event_data_ok.
    pose proof (update_interactor_event_data_sets fault KEY_TO_SYM
                  setter_fp (fun a H => H) m w) as R1.
    destruct (setter_fp_frame _ _ R1) as [C [_ [pre [E Hpre]]]].
    rewrite (bind_interactor _ _ NF), (bind_ext _ _ _ NF). simpl.
    split.
    + rewrite <- C. reflexivity.
    + exists (pre ++ [MouseMoveEvent]). rewrite E, <- app_assoc.
      split; [reflexivity | ].
      apply Forall_app. split; [ | repeat constructor].
      eapply Forall_impl; [ | exact Hpre].
      intros c Hc. destruct c; simpl in *; try reflexivity; discriminate.
  - simpl. split; [reflexivity | ].
    exists []. rewrite app_nil_r. split; [reflexivity | constructor].
Qed.

(** X11.  The end of a touch, with collaborators that do not fail.  The
    mouseup made for it carries no offsets, so setting its event data fails
    on the missing key offsetX and the message 'offsetX' is left in the
    [error] field; the release of the left button is injected all the same
    (after the pending move, if any, at the position of that move),
    [dragging] and [_touching] are false afterwards and [full_render] is
    called. *)
Theorem touch_end_releases_and_records_missing_offset w :
  fault_free fault ->
  let w' := world_of (_on_touch_end time_at fault KEY_TO_SYM w) in
  error (self w') = Some "'offsetX'"
  /\ dragging (self w') = false /\ _touching (self w') = false
  /\ exists pre post,
       trace w'
       = trace w ++ pre ++ [LeftButtonReleaseEvent]
                 ++ full_render_called :: post
       /\ Forall (fun c => is_button_event c = false) pre
       /\ Forall (fun c => is_render_call c = true) post.
Proof.
  intro NF. cbv zeta. unfold _on_touch_end. rewrite bind_time.
  set (ev := touch_dict "mouseup" None None (time_at (ticks w)) (Some 0%Z)).
  assert (gate_open ev (tick w)) as G by (right; discriminate).
  assert (res_of (handle_interaction_event time_at fault KEY_TO_SYM ev
                    (tick w)) = Ok tt) as Hok.
  { apply handle_named_event_returns; [discriminate | reflexivity]. }
  apply res_ok_eq in Hok. erewrite bind_ok by exact Hok.
  unfold assign, modify, world_of at 1 2 3 4. cbn [snd].
  rewrite (handle_accepted ev "mouseup" ev (tick w) eq_refl eq_refl G).
  names.
  destruct (log_event_spec ev (tick w)) as [_ [_ [Tl _]]].
  set (wl := world_of (log_event ev (tick w))) in *.
  assert (exists w5,
            on_mouseup time_at fault KEY_TO_SYM ev wl = (Ok tt, w5)
            /\ error (self w5) = Some "'offsetX'"
            /\ dragging (self w5) = false
            /\ exists pre post,
                 trace w5
                 = trace wl ++ pre ++ [LeftButtonReleaseEvent]
                     ++ full_render_called :: post
                 /\ Forall (fun c => is_button_event c = false) pre
                 /\ Forall (fun c => is_render_call c = true) post)
    as [w5 [E5 [Er [Dr [pre [post [Tr [Hpre Hpost]]]]]]]].
  { unfold on_mouseup.
    destruct (send_pending_fault_free wl NF) as [E1 [_ [pre [T1 Hpre]]]].
    erewrite bind_ok by exact E1.
    set (w1 := world_of (send_pending_mouse_move_event fault KEY_TO_SYM wl))
      in *.
    erewrite bind_ok
      by (apply (update_without_offsetX ev "mouseup" w1 NF);
          reflexivity).
    simpl item. rewrite bind_ret.
    change ((0 =? 0)%Z) with true. cbv iota.
    erewrite bind_ok
      by (rewrite (bind_interactor _ _ NF); apply (ext_ok _ _ NF)).
    rewrite bind_assign.
    match goal with
    | |- context [full_render time_at fault ?x] => set (w4 := x)
    end.
    exists (world_of (full_render time_at fault w4)).
    split; [apply res_ok_eq, full_render_never_raises | ].
    split; [rewrite (full_render_fault_free_error w4 NF); reflexivity | ].
    split.
    - pose proof (full_render_keeps_controller w4) as Cf.
      unfold controller_state in Cf. inversion Cf. reflexivity.
    - destruct (full_render_trace w4) as [post [Ep Hpost]].
      exists pre, post. rewrite Ep. subst w4. simpl. rewrite T1.
      split; [ | split; assumption].
      rewrite <- !app_assoc. reflexivity. }
  unfold try_except. rewrite E5. simpl.
  split; [exact Er | ]. split; [exact Dr | ]. split; [reflexivity | ].
  exists pre, post. rewrite Tr, Tl. split; [reflexivity | split; assumption].
Qed.

Lemma capture_timestamp_offset_frame ev w :
  exists r wc,
    capture_timestamp_offset time_at ev w = (r, wc)
    /\ quick_render_delay_sec (self wc) = quick_render_delay_sec (self w)
    /\ _touching (self wc) = _touching (self w).
Proof.
  unfold capture_timestamp_offset, time. monad.
  destruct (message_timestamp_offset (self w)).
  - eexists _, _. repeat split.
  - destruct (timeStamp ev); eexists _, _; repeat split.
Qed.

Lemma bind_raise {A B} (m : M A) (k : A -> M B) w e w1 :
  m w = (Raise e, w1) -> bind m k w = (Raise e, w1).
Proof. intro E. unfold bind. rewrite E. reflexivity. Qed.

Lemma controller_state_delay w w' :
  controller_state w' = controller_state w ->
  quick_render_delay_sec (self w') = quick_render_delay_sec (self w).
Proof. unfold controller_state. intro H. inversion H. congruence. Qed.

Lemma on_mousemove_touching ev w :
  _touching (self w) = true ->
  quick_render_delay_sec
    (self (world_of (on_mousemove time_at fault KEY_TO_SYM ev w)))
  = quick_render_delay_sec (self w).
Proof.
  intro T. unfold on_mousemove.
  destruct (capture_timestamp_offset_frame ev w) as [r [wc [E [Dc Tc]]]].
  destruct r as [[] | e].
  - erewrite bind_ok by exact E.
    rewrite bind_assign, bind_get_self.
    cbn [self on_self dragging track_mouse_move adaptive_render_delay
         _touching upd_last_mouse_move_event].
    destruct (negb (dragging (self wc)) && negb (track_mouse_move (self wc)));
      [exact Dc | ].
    rewrite Tc, T, andb_false_r. simpl when.
    rewrite bind_ret, bind_time, bind_get_self.
    destruct (Qltb _ _); simpl when.
    + rewrite (controller_state_delay _ _
                 (quick_render_keeps_controller
                    (tick (on_self (upd_last_mouse_move_event (Some ev))
                             wc)))).
      exact Dc.
    + exact Dc.
  - erewrite bind_raise by exact E. exact Dc.
Qed.

(** X12.  While a finger is on the canvas the adaptive delay is frozen: for
    any event handed to the handler while [_touching] is true, tagged as a
    touch event or not, and whatever the collaborators do, the quick-render
    delay is the same afterwards. *)
Theorem delay_is_frozen_while_touching ev w :
  _touching (self w) = true ->
  quick_render_delay_sec
    (self (world_of (handle_interaction_event time_at fault KEY_TO_SYM ev w)))
  = quick_render_delay_sec (self w).
Proof.
  intro T.
  destruct (log_event_spec (logged_form w ev) w) as [L [C _]].
  assert (quick_render_delay_sec
            (self (world_of (log_event (logged_form w ev) w)))
          = quick_render_delay_sec (self w)
          /\ _touching (self (world_of (log_event (logged_form w ev) w)))
             = true) as [Dl Tl].
  { unfold controller_state in C. inversion C. split; congruence. }
  unfold handle_interaction_event, logged_form in *.
  rewrite bind_get_self.
  destruct (event ev) as [name | ].
  - destruct (rescale_offsets (width (self w)) (height (self w)) ev)
      as [ev' failure].
    simpl fst in *. erewrite bind_ok by exact L.
    set (wl := world_of (log_event ev' w)) in *.
    destruct failure; [exact Dl | ].
    assert (quick_render_delay_sec
              (self (world_of (dispatch time_at fault KEY_TO_SYM name ev' wl)))
            = quick_render_delay_sec (self wl)) as D.
    { destruct (String.eqb name "mousemove") eqn:Hn.
      - unfold dispatch. rewrite bind_get_self, Hn.
        destruct (_touching (self wl) && _); [reflexivity | ].
        apply on_mousemove_touching. exact Tl.
      - pose proof (dispatch_other_effects time_at fault KEY_TO_SYM button_fp
                      (fun a H => H) name ev' Hn wl) as R.
        apply (reach_invariant button_fp
                 (fun x => quick_render_delay_sec (self x)
                           = quick_render_delay_sec (self wl)))
          in R; [exact R | | reflexivity].
        intros a x Fa Px. rewrite <- Px.
        destruct a; simpl in Fa; try discriminate; reflexivity. }
    unfold try_except, world_of in *.
    destruct (dispatch time_at fault KEY_TO_SYM name ev' wl) as [[[] | e] w1];
      simpl in *; congruence.
  - erewrite bind_ok by exact L. exact Dl.
Qed.

(** *** Rescaling, again *)

(** X13.  Rescaling keeps the pointer on the canvas.  On a canvas below
    2^31 pixels (the sizes VTK reports are C ints), an offset that lies
    within the bounding rect of the event (between 0 and its width, or its
    height) is rescaled to a pixel between 0 and the width (the height) of
    the canvas: the two roundings to a double and the rounding to an int
    never carry it past the edge. *)
Theorem rescaled_offsets_stay_on_canvas W H ev x y bw bh :
  offsetX ev = Some x -> offsetY ev = Some y ->
  boundingRectWidth ev = Some bw -> boundingRectHeight ev = Some bh ->
  (0 <= W < 2 ^ 31)%Z -> (0 <= H < 2 ^ 31)%Z ->
  pow2 (-900) <= bw -> pow2 (-900) <= bh ->
  (0 <= x <= 2 ^ 53)%Z -> (0 <= y <= 2 ^ 53)%Z ->
  inject_Z x <= bw -> inject_Z y <= bh ->
  exists x' y',
    snd (rescale_offsets W H ev) = None
    /\ offsetX (fst (rescale_offsets W H ev)) = Some x'
    /\ offsetY (fst (rescale_offsets W H ev)) = Some y'
    /\ (0 <= x' <= W)%Z /\ (0 <= y' <= H)%Z.
Proof.
  intros Hx Hy Hbw Hbh BW BH Rw Rh Bx By Xw Yh.
  pose proof (pow2_pos (-900)) as P9.
  assert (finite_scaling W x bw) as Fx.
  { repeat split; [lia | lia | rewrite Qabs_pos by lra; exact Rw]. }
  assert (finite_scaling H y bh) as Fy.
  { repeat split; [lia | lia | rewrite Qabs_pos by lra; exact Rh]. }
  rewrite (rescale_offsets_scaled W H ev x y bw bh Hx Hy Hbw Hbh Fx Fy).
  eexists _, _. simpl. split; [reflexivity | ].
  split; [reflexivity | ]. split; [reflexivity | ].
  split; apply pixel_on_canvas; first [assumption | lra].
Qed.

(** With a rect of the size of the canvas the scale is the double 1 and
    the product the offset itself. *)
Lemma pixel_at_canvas_size x size rect :
  (Z.abs x <= 2 ^ 53)%Z -> size <> 0%Z -> rect == inject_Z size ->
  py_round (rnd (inject_Z x * rnd (inject_Z size / rect))) = x.
Proof.
  intros B N E.
  assert (~ inject_Z size == 0) as Q0.
  { change 0 with (inject_Z 0). rewrite inject_Z_injective. exact N. }
  assert (inject_Z size / rect == 1) as S1 by (rewrite E; field; exact Q0).
  rewrite (rnd_comp _ _ S1).
  assert (rnd 1 == 1) as R1 by (vm_compute; reflexivity).
  assert (inject_Z x * rnd 1 == inject_Z x) as P by (rewrite R1; ring).
  rewrite (rnd_comp _ _ P), (py_round_comp _ _ (rnd_int x B)).
  apply py_round_inject_Z.
Qed.

(** X14.  When the bounding rect of an event has the size of the canvas the
    rescaling changes nothing: the offsets come out as they went in.  The
    sizes and the offsets are ints that are doubles, up to 2^53 in
    magnitude; a larger offset would be rounded on its way to a float. *)
Theorem rescaling_at_canvas_size_is_identity W H ev x y bw bh :
  offsetX ev = Some x -> offsetY ev = Some y ->
  boundingRectWidth ev = Some bw -> boundingRectHeight ev = Some bh ->
  bw == inject_Z W -> bh == inject_Z H -> W <> 0%Z -> H <> 0%Z ->
  (Z.abs W <= 2 ^ 53)%Z -> (Z.abs H <= 2 ^ 53)%Z ->
  (Z.abs x <= 2 ^ 53)%Z -> (Z.abs y <= 2 ^ 53)%Z ->
  snd (rescale_offsets W H ev) = None
  /\ offsetX (fst (rescale_offsets W H ev)) = Some x
  /\ offsetY (fst (rescale_offsets W H ev)) = Some y.
Proof.
  intros Hx Hy Hbw Hbh Ew Eh NW NH BW BH Bx By.
  assert (forall z q, z <> 0%Z -> q == inject_Z z -> pow2 (-900) <= Qabs q)
    as Big.
  { intros z q Nz Eq. rewrite Eq, Qabs_inject_Z.
    assert (pow2 (-900) <= 1) as L by (vm_compute; discriminate).
    assert (inject_Z 1 <= inject_Z (Z.abs z)) as M
        by (rewrite <- Zle_Qle; lia).
    change (inject_Z 1) with 1 in M. lra. }
  assert (finite_scaling W x bw) as Fx
      by (repeat split; [exact BW | exact Bx | exact (Big W bw NW Ew)]).
  assert (finite_scaling H y bh) as Fy
      by (repeat split; [exact BH | exact By | exact (Big H bh NH Eh)]).
  rewrite (rescale_offsets_scaled W H ev x y bw bh Hx Hy Hbw Hbh Fx Fy).
  simpl. split; [reflexivity | ].
  rewrite (pixel_at_canvas_size x W bw Bx NW Ew),
          (pixel_at_canvas_size y H bh By NH Eh).
  split; reflexivity.
Qed.

(** *** Teardown, construction and keys *)

(** X15.  [close] swallows nothing.  When the [close] of the base class
    raises, the exception leaves [close] and the cleanup callback is not
    invoked; when the callback itself raises, its exception leaves [close]
    too, the base class having been closed. *)
Theorem close_propagates_failures w msg :
  (fault (attempts w) super_close = Some msg ->
   close fault w = (Raise (Failure msg), bump w)
   /\ count is_on_close (trace (world_of (close fault w)))
      = count is_on_close (trace w))
  /\ (fault (attempts w) super_close = None ->
      _on_close (self w) = true ->
      fault (S (attempts w)) on_close = Some msg ->
      res_of (close fault w) = Raise (Failure msg)
      /\ trace (world_of (close fault w)) = trace w ++ [super_close]).
Proof.
  unfold close, ext. monad. split.
  - intro H. rewrite H. split; reflexivity.
  - intros H C H'. rewrite H. simpl. rewrite C. simpl. rewrite H'.
    split; reflexivity.
Qed.

(** X16.  Construction with a quality in [0, 100].  With collaborators that
    do not fail the constructor initialises the base class, forces
    off-screen rendering, takes the size of the canvas from the render
    window and renders exactly one frame, encoded at the given quality; the
    widget starts idle (not touching, not dragging, no pending move, no
    clock offset, no error, empty logs, delay 0.001 in the range
    [0.001, 2.0]).  A failure of that first render is not swallowed: it
    makes the constructor fail. *)
Theorem construction_renders_first_frame size le tb aw q oc w :
  0 <= q -> q <= 100 ->
  (fault_free fault ->
   res_of (__init__ time_at fault size le tb aw q oc w) = Ok tt
   /\ self (world_of (__init__ time_at fault size le tb aw q oc w))
      = attributes size (time_at (ticks w)) le tb aw q oc
   /\ trace (world_of (__init__ time_at fault size le tb aw q oc w))
      = trace w
          ++ [super_init; SetOffScreenRendering 1; GetSize; Render;
              GetRGBACharPixelData 0 0 (fst size - 1) (snd size - 1);
              save_JPEG q; draw_image (fst size) (snd size)])
  /\ (forall msg,
        fault (attempts w) super_init = None ->
        fault (S (attempts w)) (SetOffScreenRendering 1) = None ->
        fault (S (S (attempts w))) GetSize = None ->
        fault (S (S (S (attempts w)))) Render = Some msg ->
        res_of (__init__ time_at fault size le tb aw q oc w)
        = Raise (Failure msg)).
Proof.
  intros Lo Hi. apply Qltb_false in Lo. apply Qltb_false in Hi.
  unfold __init__, update_canvas, ext, time. monad.
  rewrite Lo, Hi. simpl. split.
  - intro NF. repeat (rewrite NF; simpl).
    split; [reflexivity | ]. split; [reflexivity | ].
    rewrite <- !app_assoc. reflexivity.
  - intros msg H1 H2 H3 H4. rewrite H1. simpl. rewrite H2. simpl.
    rewrite H3. simpl. rewrite H4. reflexivity.
Qed.


End Claims.

(** * The theorems at work on a concrete session *)

Lemma no_fault_is_fault_free : fault_free no_fault.
Proof. intros n c. reflexivity. Qed.

Lemma quick_render_delay_in_range_witness :
  res_of (__init__ example_clock no_fault (200, 100)%Z true false true 80
            true fresh_world) = Ok tt
  /\ delay_in_range
       (run example_clock no_fault example_syms example_session
          (world_of (__init__ example_clock no_fault (200, 100)%Z true false
                       true 80 true fresh_world))).
Proof.
  split; [reflexivity | ].
  apply (quick_render_delay_in_range example_clock no_fault example_syms
           (200, 100)%Z true false true 80 true fresh_world example_session).
  reflexivity.
Defined.

Lemma offsets_rescaled_to_canvas_witness :
  (finite_scaling 200 50 100 /\ finite_scaling 100 10 50)
  /\ rescale_offsets 200 100 enter_event
     = (assign_offsetY 20 (assign_offsetX 100 enter_event), None).
Proof.
  assert (finite_scaling 200 50 100) as Fx
      by (repeat split; vm_compute; discriminate).
  assert (finite_scaling 100 10 50) as Fy
      by (repeat split; vm_compute; discriminate).
  split; [split; assumption | ].
  destruct (proj1 (offsets_rescaled_to_canvas 200 100 enter_event) 50%Z 10%Z
              100 50 eq_refl eq_refl eq_refl eq_refl Fx Fy) as [E _].
  rewrite E. vm_compute. reflexivity.
Defined.

Lemma quality_checked_at_construction_witness :
  (0 <= 80 /\ 80 <= 100)
  /\ res_of (__init__ example_clock no_fault (200, 100)%Z true false true 80
               true fresh_world) = Ok tt
  /\ (100 < 101)
  /\ res_of (__init__ example_clock no_fault (200, 100)%Z true false true 101
               true fresh_world)
     = Raise (ValueError "`quality` parameter must be between 0 and 100").
Proof.
  assert (0 <= 80 /\ 80 <= 100) as In by (split; discriminate).
  assert (100 < 101) as Out by reflexivity.
  split; [exact In | ].
  split.
  - apply (proj1
             (quality_checked_at_construction example_clock no_fault
                (200, 100)%Z true false true 80 true fresh_world) In).
    exact no_fault_is_fault_free.
  - split; [exact Out | ].
    apply (proj2
             (quality_checked_at_construction example_clock no_fault
                (200, 100)%Z true false true 101 true fresh_world)
             (or_intror Out)).
    reflexivity.
Defined.

Lemma close_invokes_callback_each_time_witness :
  fault_free no_fault
  /\ count is_on_close (trace (close_times no_fault 3 fresh_world)) = 3%nat.
Proof.
  split; [exact no_fault_is_fault_free | ].
  exact (close_invokes_callback_each_time no_fault 3 no_fault_is_fault_free
           fresh_world).
Defined.

(** C4 as stated fails: on a widget with a cleanup callback, two calls of
    [close] invoke the callback twice, not once. *)
Lemma close_twice_invokes_callback_twice :
  count is_on_close (trace (close_times no_fault 2 fresh_world)) = 2%nat
  /\ count is_on_close (trace (close_times no_fault 2 fresh_world)) <> 1%nat.
Proof. split; [reflexivity | discriminate]. Qed.

Lemma touching_drops_untagged_events_witness :
  (_touching (self touching_world) = true
   /\ touch_event (pointer "mousedown" 1 2 0 5) = None)
  /\ trace (world_of (handle_interaction_event example_clock no_fault
                        example_syms (pointer "mousedown" 1 2 0 5)
                        touching_world))
     = trace touching_world.
Proof.
  split; [split; reflexivity | ].
  apply (touching_drops_untagged_events example_clock no_fault example_syms
           (pointer "mousedown" 1 2 0 5) touching_world);
    reflexivity.
Defined.

(** C5 as stated fails: with logging enabled (the default) the dropped
    event changes the state of the session, it is appended to
    [logged_events]. *)
Lemma dropped_event_is_logged :
  _touching (self touching_world) = true
  /\ touch_event (pointer "mousedown" 1 2 0 5) = None
  /\ List.length
       (logged_events
          (self (world_of (handle_interaction_event example_clock no_fault
                             example_syms (pointer "mousedown" 1 2 0 5)
                             touching_world))))
     = S (List.length (logged_events (self touching_world)))
  /\ world_of (handle_interaction_event example_clock no_fault example_syms
                 (pointer "mousedown" 1 2 0 5) touching_world)
     <> touching_world.
Proof.
  split; [reflexivity | ]. split; [reflexivity | ].
  split; [reflexivity | ].
  intro H.
  apply (f_equal (fun w => List.length (logged_events (self w)))) in H.
  vm_compute in H. discriminate H.
Qed.











(** * The arithmetic of the rescaling, checked *)

(** At every offset of [tie_points] the exact image is half-way between
    two pixels, and the product of lines 305-306 as modelled here is the
    double that the multiplication and the division of [SpecFloat]
    give. *)
Lemma ties_as_in_binary64 :
  forallb (fun p => let '(size, rect, x) := p in
                    half_way size rect x && same_product size x (rect, 0%Z))
          tie_points
  = true.
Proof. vm_compute. reflexivity. Qed.

(** At 86 of these 2460 offsets the pixel of the program is not the one
    that rounding the exact image to the even neighbour would give. *)
Lemma ties_decided_by_the_doubles :
  List.length tie_points = 2460%nat
  /\ List.length
       (filter (fun p => let '(size, rect, x) := p in
                         match pixel size x rect with
                         | Some v => negb (v =? exact_pixel size x rect)%Z
                         | None => true
                         end)
               tie_points)
     = 86%nat.
Proof. split; vm_compute; reflexivity. Qed.

(** The same agreement for rects of a fractional size, and at the ends of
    the exponent range, where the scale is subnormal, infinite, or the
    product not a number. *)
Lemma products_as_in_binary64 :
  forallb (fun p => let '(size, x, rect) := p in same_product size x rect)
          (quarter_points ++ extreme_points)
  = true.
Proof. vm_compute. reflexivity. Qed.

(** Both exceptions of [round] are within reach of an event: a bounding
    rect of the smallest positive double makes the scale infinite. *)
Lemma rescaling_beyond_the_doubles :
  snd (rescale_offsets 300 200 (move_in_rect 7 0 (pow2 (-1074)) 200))
  = Some (OverflowError "cannot convert float infinity to integer")
  /\ snd (rescale_offsets 300 200 (move_in_rect 0 0 (pow2 (-1074)) 200))
     = Some (ValueError "cannot convert float NaN to integer").
Proof. split; vm_compute; reflexivity. Qed.

(** * The further properties at work *)

Lemma handler_swallows_failures_witness :
  (event (pointer "mousedown" 10 20 0 1) <> None
   /\ snd (rescale_offsets (width (self fresh_world))
             (height (self fresh_world)) (pointer "mousedown" 10 20 0 1))
      = None)
  /\ res_of (handle_interaction_event example_clock interactor_gone
               example_syms (pointer "mousedown" 10 20 0 1) fresh_world)
     = Ok tt.
Proof.
  split; [split; [discriminate | reflexivity] | ].
  apply (proj1 (proj2 (handler_swallows_failures example_clock
                         interactor_gone example_syms
                         (pointer "mousedown" 10 20 0 1) fresh_world)));
    [discriminate | reflexivity].
Defined.

Lemma idle_mousemove_is_silent_witness :
  (dragging (self fresh_world) = false
   /\ track_mouse_move (self fresh_world) = false)
  /\ trace (world_of (handle_interaction_event example_clock no_fault
                        example_syms (pointer "mousemove" 30 40 0 2)
                        fresh_world))
     = trace fresh_world.
Proof.
  split; [split; reflexivity | ].
  apply (idle_mousemove_is_silent example_clock no_fault example_syms
           (pointer "mousemove" 30 40 0 2) fresh_world);
    reflexivity.
Defined.

Lemma mousedown_always_starts_drag_witness :
  gate_open (pointer "mousedown" 10 20 0 1) fresh_world
  /\ dragging
       (self (world_of (handle_interaction_event example_clock
                          interactor_gone example_syms
                          (pointer "mousedown" 10 20 0 1) fresh_world)))
     = true.
Proof.
  assert (gate_open (pointer "mousedown" 10 20 0 1) fresh_world) as G
      by (left; reflexivity).
  split; [exact G | ].
  apply (mousedown_always_starts_drag example_clock interactor_gone
           example_syms (pointer "mousedown" 10 20 0 1) fresh_world
           eq_refl G eq_refl).
Defined.

Lemma mouseenter_discards_pending_move_witness :
  (last_mouse_move_event (self hover_world)
   = Some (pointer "mousemove" 30 40 0 2)
   /\ gate_open (pointer "mouseenter" 0 50 0 9) hover_world)
  /\ last_mouse_move_event
       (self (world_of (handle_interaction_event example_clock no_fault
                          example_syms (pointer "mouseenter" 0 50 0 9)
                          hover_world)))
     = None.
Proof.
  assert (gate_open (pointer "mouseenter" 0 50 0 9) hover_world) as G
      by (left; reflexivity).
  split; [split; [reflexivity | exact G] | ].
  apply (mouseenter_discards_pending_move example_clock no_fault example_syms
           (pointer "mouseenter" 0 50 0 9) hover_world eq_refl G
           no_fault_is_fault_free eq_refl).
Defined.


Lemma touch_callbacks_on_no_touch_point_witness :
  touch_event (pointer "mousedown" 10 20 0 1) = None
  /\ trace (world_of (handle_interaction_event example_clock no_fault
                        example_syms (pointer "mousedown" 10 20 0 1)
                        (world_of (_on_touch_start example_clock no_fault
                                     example_syms [] fresh_world))))
     = trace fresh_world.
Proof.
  split; [reflexivity | ].
  apply (proj2 (proj2 (touch_callbacks_on_no_touch_point example_clock
                         no_fault example_syms fresh_world))).
  reflexivity.
Defined.

Lemma touch_move_rate_limit_witness :
  example_clock (ticks fresh_world) - _last_touch (self fresh_world)
  < 1 # 100
  /\ _on_touch_move example_clock no_fault example_syms [(11 # 2, 7 # 2)]
       fresh_world
     = (Ok tt, tick fresh_world).
Proof.
  split; [reflexivity | ].
  apply (proj1 (touch_move_rate_limit example_clock no_fault example_syms
                  (11 # 2) (7 # 2) [] fresh_world)).
  reflexivity.
Defined.

Lemma touch_end_releases_and_records_missing_offset_witness :
  fault_free no_fault
  /\ error (self (world_of (_on_touch_end example_clock no_fault example_syms
                              touching_world)))
     = Some "'offsetX'".
Proof.
  split; [exact no_fault_is_fault_free | ].
  apply (touch_end_releases_and_records_missing_offset example_clock no_fault
           example_syms touching_world no_fault_is_fault_free).
Defined.

Lemma delay_is_frozen_while_touching_witness :
  _touching (self touching_world) = true
  /\ quick_render_delay_sec
       (self (world_of (handle_interaction_event example_clock no_fault
                          example_syms
                          (touch_dict "mousemove" (Some 12%Z) (Some 22%Z)
                             5000 None)
                          touching_world)))
     = quick_render_delay_sec (self touching_world).
Proof.
  split; [reflexivity | ].
  apply (delay_is_frozen_while_touching example_clock no_fault example_syms).
  reflexivity.
Defined.

Lemma rescaled_offsets_stay_on_canvas_witness :
  ((0 <= 300 < 2 ^ 31)%Z /\ (0 <= 200 < 2 ^ 31)%Z
   /\ pow2 (-900) <= 440 /\ pow2 (-900) <= 200
   /\ (0 <= 11 <= 2 ^ 53)%Z /\ (0 <= 0 <= 2 ^ 53)%Z
   /\ inject_Z 11 <= 440 /\ inject_Z 0 <= 200)
  /\ exists x' y',
       snd (rescale_offsets 300 200 (move_in_rect 11 0 440 200)) = None
       /\ offsetX (fst (rescale_offsets 300 200 (move_in_rect 11 0 440 200)))
          = Some x'
       /\ offsetY (fst (rescale_offsets 300 200 (move_in_rect 11 0 440 200)))
          = Some y'
       /\ (0 <= x' <= 300)%Z /\ (0 <= y' <= 200)%Z.
Proof.
  assert (pow2 (-900) <= 440) as Rw by (vm_compute; discriminate).
  assert (pow2 (-900) <= 200) as Rh by (vm_compute; discriminate).
  assert (inject_Z 11 <= 440) as Xw by (vm_compute; discriminate).
  assert (inject_Z 0 <= 200) as Yh by (vm_compute; discriminate).
  split; [repeat split; first [assumption | lia] | ].
  apply (rescaled_offsets_stay_on_canvas 300 200 (move_in_rect 11 0 440 200)
           11 0 440 200);
    first [reflexivity | assumption | lia].
Defined.

Lemma rescaling_at_canvas_size_is_identity_witness :
  (200 == inject_Z 200 /\ 100 == inject_Z 100)
  /\ offsetX (fst (rescale_offsets 200 100 unscaled_event)) = Some 37%Z
  /\ offsetY (fst (rescale_offsets 200 100 unscaled_event)) = Some 59%Z.
Proof.
  split; [split; reflexivity | ].
  apply (rescaling_at_canvas_size_is_identity 200 100 unscaled_event 37 59
           200 100);
    first [reflexivity | discriminate | lia].
Defined.

Lemma close_propagates_failures_witness :
  base_close_fails (attempts fresh_world) super_close
  = Some "comm is closed"
  /\ close base_close_fails fresh_world
     = (Raise (Failure "comm is closed"), bump fresh_world).
Proof.
  split; [reflexivity | ].
  apply (proj1 (close_propagates_failures base_close_fails fresh_world
                  "comm is closed")).
  reflexivity.
Defined.

Lemma construction_renders_first_frame_witness :
  (0 <= 80 /\ 80 <= 100 /\ fault_free no_fault)
  /\ trace (world_of (__init__ example_clock no_fault (200, 100)%Z true false
                        true 80 true fresh_world))
     = [super_init; SetOffScreenRendering 1; GetSize; Render;
        GetRGBACharPixelData 0 0 199 99; save_JPEG 80; draw_image 200 100].
Proof.
  assert (0 <= 80) as Lo by discriminate.
  assert (80 <= 100) as Hi by discriminate.
  split; [repeat split; try assumption | ].
  apply (proj1 (construction_renders_first_frame example_clock no_fault
                  (200, 100)%Z true false true 80 true fresh_world Lo Hi)
           no_fault_is_fault_free).
Defined.

